(** * RyRef: screen-space reference overlays for the 3D viewport

    A shallow embedding of [__init__.py]: the per-frame draw callback
    [draw_overlay] with its texture cache [_image_cache], and the list
    operators [RYREF_OT_remove_image.execute] and
    [RYREF_OT_move_image.execute].

    Modelling conventions.
    - Python floats are the rationals they denote ([Q]).  The arithmetic of
      the source rounds as binary64 does: [fmul] and [fadd] are the exact
      product and sum rounded to 53 significant bits, ties to even; a value
      assigned to a float property of the host is stored in single precision
      ([f32], 24 bits), so [0.2] is held as 13421773/67108864.  The exponent
      range is not bounded: overflow, subnormals, infinities and NaN are
      outside the model.  Image sizes and the UV constants are Python ints:
      [Z].
    - [_image_cache] is a Python dict keyed by file path: [gmap string _].
    - The host (bpy / gpu) is a record of fallible functions; [None] stands
      for a raised exception.  Every call into the host that the draw
      callback makes is logged as an [Event], so a frame returns the new
      cache and the trace of host calls it issued.
    - The scene properties the addon registers are the record [Scene]. *)

From Stdlib Require Import ZArith QArith Qabs Permutation.
From Stdlib Require FloatOps.
From stdpp Require Import gmap strings list fin_maps.

#[local] Open Scope Z_scope.

(** ** Floating point *)

(** The exponent of a positive rational: [2^e <= q < 2^(e+1)]. *)
Definition floor_log2 (q : Q) : Z :=
  let k := Z.log2 (Qnum q) - Z.log2 (Zpos (Qden q)) in
  if Qle_bool (Qpower 2 k) q then k else k - 1.

(** The integer nearest to a rational, a tie going to the even one. *)
Definition round_half_even (q : Q) : Z :=
  let n := Qnum q in
  let d := Zpos (Qden q) in
  let fl := n / d in
  let r := 2 * (n mod d) in
  if r <? d then fl
  else if d <? r then fl + 1
  else if Z.even fl then fl else fl + 1.

(** The binary float with [prec] significant bits nearest to [q], ties to
    even, as a rational in lowest terms. *)
Definition round_to (prec : Z) (q : Q) : Q :=
  match Qnum q with
  | 0 => 0%Q
  | _ =>
    let a := Qabs q in
    let e := floor_log2 a in
    let m := round_half_even (a * Qpower 2 (prec - 1 - e))%Q in
    let r := (inject_Z m * Qpower 2 (e - (prec - 1)))%Q in
    Qred (if Qnum q <? 0 then - r else r)%Q
  end.

(** A Python float is a binary64; a float property of the host holds a
    binary32. *)
Definition b64 : Q -> Q := round_to 53.
Definition f32 : Q -> Q := round_to 24.

(** Python's [+] and [*] on floats, and the conversion of an int operand. *)
Definition fadd (a b : Q) : Q := b64 (a + b)%Q.
Definition fmul (a b : Q) : Q := b64 (a * b)%Q.
Definition float_of_int (n : Z) : Q := b64 (inject_Z n).

(** ** Host objects *)

(** A [bpy.types.Image] as the draw callback reads it: [image.has_data] and
    [image.size]. *)
Record Image := mkImage {
  has_data : bool;
  image_size : Z * Z
}.

(** A [gpu.types.GPUTexture] handle. *)
Definition GPUTexture := positive.

(** One entry of [_image_cache]: the tuple [(image, gpu_tex)]. *)
Abbreviation CacheEntry := (Image * GPUTexture)%type.

Abbreviation Cache := (gmap string CacheEntry).

(** The three host calls of the [try] block.  [None] is a raised exception.
    [gl_load] returns the image object as it is after the call. *)
Record Host := mkHost {
  images_load : string -> option Image;
  gl_load : Image -> option Image;
  texture_from_image : Image -> option GPUTexture
}.

Inductive BlendMode := ALPHA | NONE.

(** The batch built by [batch_for_shader(_shader, 'TRIS', ...)]. *)
Record Batch := mkBatch {
  pos : list (Q * Q);
  texCoord : list (Z * Z);
  indices : list (nat * nat * nat)
}.

(** Host calls issued by [draw_overlay], in program order.  The three loading
    calls carry the file path of the record being resolved. *)
Inductive Event :=
| ImagesLoad (filepath : string)
| GlLoad (filepath : string)
| TextureFromImage (filepath : string)
| CacheStore (filepath : string) (entry : CacheEntry)
| BlendSet (mode : BlendMode)
| ShaderBind
| UniformSampler (name : string) (tex : GPUTexture)
| UniformFloat (name : string) (value : Q * Q * Q * Q)
| BatchDraw (batch : Batch).

(** ** Data model *)

(** [class RyRefImage(bpy.types.PropertyGroup)]. *)
Record RyRefImage := mkRyRefImage {
  name : string;
  filepath : string;
  visible : bool;
  position : Q * Q;
  scale : Q * Q;
  opacity : Q;
  flip_x : bool;
  flip_y : bool
}.

(** The properties [register] attaches to [bpy.types.Scene].  [ryref_index]
    is a host integer; the operators step it by one only inside their guards
    ([index > 0], [index < len - 1]), where it cannot overflow, so it is a
    plain [Z] here. *)
Record Scene := mkScene {
  ryref_references_on : bool;
  ryref_images : list RyRefImage;
  ryref_index : Z
}.

(** What the operators act on: the scene and the module global
    [_image_cache]. *)
Record State := mkState {
  scene : Scene;
  _image_cache : Cache
}.

(** ** draw_overlay *)

(** The body of the [try] block (lines 94-97): load, gl_load, upload, store.
    Returns the host calls made and the entry stored, [None] when one of the
    calls raised (the [except Exception: continue] path). *)
Definition try_load (host : Host) (path : string)
  : list Event * option CacheEntry :=
  match images_load host path with
  | None => ([ImagesLoad path], None)
  | Some image0 =>
    match gl_load host image0 with
    | None => ([ImagesLoad path; GlLoad path], None)
    | Some image =>
      match texture_from_image host image with
      | None => ([ImagesLoad path; GlLoad path; TextureFromImage path], None)
      | Some gpu_tex =>
        ([ImagesLoad path; GlLoad path; TextureFromImage path;
          CacheStore path (image, gpu_tex)],
         Some (image, gpu_tex))
      end
    end
  end.

(** [coords] (lines 112-117). *)
Definition coords (x y width height : Q) : list (Q * Q) :=
  [ (x, y);
    (fadd x width, y);
    (fadd x width, fadd y height);
    (x, fadd y height) ].

(** [uvs] (lines 119-123). *)
Definition uvs (flip_x flip_y : bool) : list (Z * Z) :=
  let uvs := [(0, 0); (1, 0); (1, 1); (0, 1)] in
  let uvs := if flip_x then map (fun '(u, v) => (1 - u, v)) uvs else uvs in
  let uvs := if flip_y then map (fun '(u, v) => (u, 1 - v)) uvs else uvs in
  uvs.

(** Lines 103-138: what one record draws once its [(image, gpu_tex)] is
    resolved. *)
Definition draw_quad (img_data : RyRefImage) (image : Image)
  (gpu_tex : GPUTexture) : list Event :=
  if negb (has_data image) || (fst (image_size image) =? 0)
     || (snd (image_size image) =? 0)
  then []
  else
    let '(x, y) := position img_data in
    let '(sx, sy) := scale img_data in
    let width := fmul (float_of_int (fst (image_size image))) sx in
    let height := fmul (float_of_int (snd (image_size image))) sy in
    let batch :=
      {| pos := coords x y width height;
         texCoord := uvs (flip_x img_data) (flip_y img_data);
         indices := [(0, 1, 2); (2, 3, 0)]%nat |} in
    [ BlendSet ALPHA;
      ShaderBind;
      UniformSampler "image" gpu_tex;
      UniformFloat "color" (1%Q, 1%Q, 1%Q, opacity img_data);
      BatchDraw batch;
      BlendSet NONE ].

(** One iteration of the [for img_data in scene.ryref_images] loop
    (lines 88-138). *)
Definition draw_image (host : Host) (img_data : RyRefImage) (cache : Cache)
  : Cache * list Event :=
  if negb (visible img_data) then (cache, [])
  else
    let path := filepath img_data in
    match cache !! path with
    | None =>
      match try_load host path with
      | (evs, None) => (cache, evs)
      | (evs, Some (image, gpu_tex)) =>
        (<[path := (image, gpu_tex)]> cache,
         evs ++ draw_quad img_data image gpu_tex)
      end
    | Some (image, gpu_tex) => (cache, draw_quad img_data image gpu_tex)
    end.

(** Lines 92-101 seen as a function: the [(image, gpu_tex)] the loop body
    goes on with, [None] when it takes the [except ... continue] path. *)
Definition resolve (host : Host) (cache : Cache) (path : string)
  : option CacheEntry :=
  match cache !! path with
  | Some entry => Some entry
  | None => (try_load host path).2
  end.

(** The loop itself: the cache is threaded through the records in store
    order and the traces are concatenated. *)
Fixpoint draw_images (host : Host) (images : list RyRefImage) (cache : Cache)
  : Cache * list Event :=
  match images with
  | [] => (cache, [])
  | img_data :: rest =>
    let '(cache1, evs1) := draw_image host img_data cache in
    let '(cache2, evs2) := draw_images host rest cache1 in
    (cache2, evs1 ++ evs2)
  end.

(** [def draw_overlay()] (lines 82-138). *)
Definition draw_overlay (host : Host) (sc : Scene) (cache : Cache)
  : Cache * list Event :=
  if negb (ryref_references_on sc) then (cache, [])
  else draw_images host (ryref_images sc) cache.

(** A run of redraws.  Between two frames the host (the files on disk) and
    the scene may have changed; the cache is only touched by [draw_overlay]. *)
Fixpoint run_frames (frames : list (Host * Scene)) (cache : Cache)
  : Cache * list Event :=
  match frames with
  | [] => (cache, [])
  | (host, sc) :: rest =>
    let '(cache1, evs1) := draw_overlay host sc cache in
    let '(cache2, evs2) := run_frames rest cache1 in
    (cache2, evs1 ++ evs2)
  end.

(** ** Trace observers *)

(** A host call of the decode-and-upload path made for [path]. *)
Definition is_load_of (path : string) (ev : Event) : bool :=
  match ev with
  | ImagesLoad p | GlLoad p | TextureFromImage p | CacheStore p _ =>
    String.eqb p path
  | _ => false
  end.

(** A completed decode-and-upload for [path]: the store into the cache. *)
Definition is_store_of (path : string) (ev : Event) : bool :=
  match ev with
  | CacheStore p _ => String.eqb p path
  | _ => false
  end.

(** The quads drawn by a trace. *)
Definition batches (evs : list Event) : list Batch :=
  omap (fun ev => match ev with BatchDraw b => Some b | _ => None end) evs.

(** Pointwise equality of corner lists up to equality of rationals. *)
Definition corners_eq (c1 c2 : list (Q * Q)) : Prop :=
  Forall2 (fun p q => (fst p == fst q)%Q /\ (snd p == snd q)%Q) c1 c2.

(** ** The host collection *)

(** [bpy_prop_collection.remove(key)]: drops the item at [key]; out of range
    the collection is left as it is. *)
Definition coll_remove {A} (l : list A) (key : Z) : list A :=
  if (0 <=? key) && (key <? Z.of_nat (length l))
  then delete (Z.to_nat key) l
  else l.

(** [bpy_prop_collection.move(key, pos)]: takes the item at [key] out and
    puts it back at [pos]; with an index out of range, or [key = pos], the
    collection is left as it is. *)
Definition coll_move {A} (l : list A) (key pos : Z) : list A :=
  if (0 <=? key) && (key <? Z.of_nat (length l))
     && (0 <=? pos) && (pos <? Z.of_nat (length l)) && negb (key =? pos)
  then
    match l !! Z.to_nat key with
    | Some x =>
      let l' := delete (Z.to_nat key) l in
      take (Z.to_nat pos) l' ++ x :: drop (Z.to_nat pos) l'
    | None => l
    end
  else l.

(** ** Operators *)

(** What [execute] returns: [{'FINISHED'}] with the state it leaves, or an
    exception that escaped. *)
Inductive Outcome :=
| FINISHED (st : State)
| Raised (exn : string).

Inductive Direction := UP | DOWN.

Definition set_images (sc : Scene) (images : list RyRefImage) : Scene :=
  {| ryref_references_on := ryref_references_on sc;
     ryref_images := images;
     ryref_index := ryref_index sc |}.

Definition set_index (sc : Scene) (index : Z) : Scene :=
  {| ryref_references_on := ryref_references_on sc;
     ryref_images := ryref_images sc;
     ryref_index := index |}.

(** [RYREF_OT_remove_image.execute] (lines 171-179).  [tag_redraw()] only
    marks viewport areas for repaint and has no effect on the state. *)
Definition remove_image_execute (st : State) : Outcome :=
  let sc := scene st in
  let idx := ryref_index sc in
  if (0 <=? idx) && (idx <? Z.of_nat (length (ryref_images sc))) then
    match ryref_images sc !! Z.to_nat idx with
    | None => Raised "IndexError"
    | Some img =>
      let cache := delete (filepath img) (_image_cache st) in
      let sc1 := set_images sc (coll_remove (ryref_images sc) idx) in
      let sc2 := set_index sc1 (Z.max 0 (idx - 1)) in
      FINISHED {| scene := sc2; _image_cache := cache |}
    end
  else FINISHED st.

(** [RYREF_OT_move_image.execute] (lines 191-203). *)
Definition move_image_execute (direction : Direction) (st : State) : Outcome :=
  let sc := scene st in
  let images := ryref_images sc in
  let index := ryref_index sc in
  match direction with
  | UP =>
    if 0 <? index then
      let sc1 := set_images sc (coll_move images index (index - 1)) in
      FINISHED {| scene := set_index sc1 (ryref_index sc1 - 1);
                  _image_cache := _image_cache st |}
    else FINISHED st
  | DOWN =>
    if index <? Z.of_nat (length images) - 1 then
      let sc1 := set_images sc (coll_move images index (index + 1)) in
      FINISHED {| scene := set_index sc1 (ryref_index sc1 + 1);
                  _image_cache := _image_cache st |}
    else FINISHED st
  end.

(** The decode-and-upload calls a trace makes for [path], and how many of
    them completed. *)
Definition loads_of (path : string) (evs : list Event) : list Event :=
  List.filter (is_load_of path) evs.

Definition stores_of (path : string) (evs : list Event) : nat :=
  length (List.filter (is_store_of path) evs).

(** 1 when [path] has a cache entry, 0 otherwise. *)
Definition cached (cache : Cache) (path : string) : nat :=
  match cache !! path with Some _ => 1%nat | None => 0%nat end.

(** ** Sample data *)

Module Sample.

Definition photo : Image := {| has_data := true; image_size := (500, 300) |}.

Definition unloaded : Image := {| has_data := false; image_size := (500, 300) |}.

Definition empty_image : Image := {| has_data := true; image_size := (0, 300) |}.

(** A record as [RYREF_OT_add_image.execute] creates it for [path]: the
    scale is 0.2 as the float property holds it. *)
Definition added (label path : string) : RyRefImage :=
  {| name := label; filepath := path; visible := true;
     position := (100, 100)%Q; scale := (f32 0.2, f32 0.2); opacity := 1%Q;
     flip_x := false; flip_y := false |}.

Definition hidden (label path : string) : RyRefImage :=
  {| name := label; filepath := path; visible := false;
     position := (100, 100)%Q; scale := (f32 0.2, f32 0.2); opacity := 1%Q;
     flip_x := false; flip_y := false |}.

(** Every file decodes to [image] and uploads to texture 1. *)
Definition host_of (image : Image) : Host :=
  {| images_load := fun _ => Some image;
     gl_load := fun i => Some i;
     texture_from_image := fun _ => Some 1%positive |}.

(** ["missing.png"] cannot be loaded, every other file is [photo]. *)
Definition host_missing : Host :=
  {| images_load := fun p =>
       if String.eqb p "missing.png" then None else Some photo;
     gl_load := fun i => Some i;
     texture_from_image := fun _ => Some 1%positive |}.

Definition on_scene (images : list RyRefImage) (index : Z) : Scene :=
  {| ryref_references_on := true; ryref_images := images;
     ryref_index := index |}.

Definition off_scene (images : list RyRefImage) (index : Z) : Scene :=
  {| ryref_references_on := false; ryref_images := images;
     ryref_index := index |}.

(** A cache that holds [image] as texture 1 under ["a.png"]. *)
Definition cache_a (image : Image) : Cache := {[ "a.png" := (image, 1%positive) ]}.

End Sample.

(** ** Proof automation for the guards *)

Ltac guard_true :=
  rewrite ?andb_true_iff, ?negb_true_iff, ?Z.leb_le, ?Z.ltb_lt, ?Z.eqb_neq;
  lia.

Ltac guard_false :=
  rewrite ?andb_false_iff, ?Z.leb_gt, ?Z.ltb_ge; lia.

Ltac guard_is b :=
  match goal with
  | |- context [if ?g then _ else _] =>
    replace g with b by (symmetry; first [guard_true | guard_false])
  end.

(** ** The GPU state the draw callback drives *)

(** The state the calls of lines 133-138 act on: the blend mode set by
    [gpu.state.blend_set], whether [_shader] is bound, and the two uniforms
    of the shader, ["image"] and ["color"]. *)
Record GpuState := mkGpuState {
  blend : BlendMode;
  shader_bound : bool;
  sampler : option GPUTexture;
  color : option (Q * Q * Q * Q)
}.

(** One [batch.draw(_shader)] as the GPU sees it: the batch and the state it
    is drawn in. *)
Record DrawCall := mkDrawCall {
  dc_batch : Batch;
  dc_state : GpuState
}.

Definition gpu_step (s : GpuState) (ev : Event) : GpuState * list DrawCall :=
  match ev with
  | BlendSet mode =>
    ({| blend := mode; shader_bound := shader_bound s;
        sampler := sampler s; color := color s |}, [])
  | ShaderBind =>
    ({| blend := blend s; shader_bound := true;
        sampler := sampler s; color := color s |}, [])
  | UniformSampler nm tex =>
    if String.eqb nm "image"
    then ({| blend := blend s; shader_bound := shader_bound s;
             sampler := Some tex; color := color s |}, [])
    else (s, [])
  | UniformFloat nm value =>
    if String.eqb nm "color"
    then ({| blend := blend s; shader_bound := shader_bound s;
             sampler := sampler s; color := Some value |}, [])
    else (s, [])
  | BatchDraw batch => (s, [{| dc_batch := batch; dc_state := s |}])
  | _ => (s, [])
  end.

Fixpoint gpu_run (s : GpuState) (evs : list Event) : GpuState * list DrawCall :=
  match evs with
  | [] => (s, [])
  | ev :: rest =>
    let '(s1, d1) := gpu_step s ev in
    let '(s2, d2) := gpu_run s1 rest in
    (s2, d1 ++ d2)
  end.

(** The batch of lines 106-131 for a record and its image. *)
Definition quad_batch (img_data : RyRefImage) (image : Image) : Batch :=
  {| pos :=
       coords (position img_data).1 (position img_data).2
         (fmul (float_of_int (image_size image).1) (scale img_data).1)
         (fmul (float_of_int (image_size image).2) (scale img_data).2);
     texCoord := uvs (flip_x img_data) (flip_y img_data);
     indices := [(0, 1, 2); (2, 3, 0)]%nat |}.

(** Whether a resolved image passes the guard of line 103. *)
Definition drawable (image : Image) : bool :=
  has_data image && negb ((image_size image).1 =? 0)
  && negb ((image_size image).2 =? 0).

(** What a record contributes to a frame that starts from [cache]: nothing,
    or one draw call with alpha blending, the shader bound, the texture the
    path resolves to, and white tinted by the record's opacity. *)
Definition rendered (host : Host) (cache : Cache) (img_data : RyRefImage)
  : list DrawCall :=
  if visible img_data then
    match resolve host cache (filepath img_data) with
    | Some (image, gpu_tex) =>
      if drawable image then
        [ {| dc_batch := quad_batch img_data image;
             dc_state :=
               {| blend := ALPHA; shader_bound := true;
                  sampler := Some gpu_tex;
                  color := Some (1%Q, 1%Q, 1%Q, opacity img_data) |} |} ]
      else []
    | None => []
    end
  else [].

(** Whether some visible record of the list has the path. *)
Definition asked (images : list RyRefImage) (path : string) : bool :=
  existsb (fun r => visible r && String.eqb (filepath r) path) images.

(** The cache a frame over [images] leaves, path by path. *)
Definition cache_after (host : Host) (images : list RyRefImage) (cache : Cache)
  (path : string) : option CacheEntry :=
  match cache !! path with
  | Some entry => Some entry
  | None => if asked images path then (try_load host path).2 else None
  end.

(** ** Adding a record *)

(** The two functions of [os.path] that [RYREF_OT_add_image.execute] calls;
    which implementation they are depends on the platform. *)
Record OsPath := mkOsPath {
  basename : string -> string;
  splitext : string -> string * string
}.

(** The item [scene.ryref_images.add()] creates: every property at the
    default of its declaration (lines 31-79), the float ones as stored. *)
Definition default_image : RyRefImage :=
  {| name := "Reference"; filepath := ""; visible := true;
     position := (f32 100, f32 100); scale := (f32 0.2, f32 0.2);
     opacity := f32 1;
     flip_x := false; flip_y := false |}.

(** [RYREF_OT_add_image.execute] (lines 147-160), [self.filepath] being
    [path]. *)
Definition add_image_execute (os_path : OsPath) (path : string) (st : State)
  : Outcome :=
  let sc := scene st in
  let img := default_image in
  let filename := basename os_path path in
  let name' := (splitext os_path filename).1 in
  let img :=
    {| name := name'; filepath := path; visible := visible img;
       position := (f32 100, f32 100); scale := (f32 0.2, f32 0.2);
       opacity := f32 1;
       flip_x := flip_x img; flip_y := flip_y img |} in
  let sc1 := set_images sc (ryref_images sc ++ [img]) in
  let sc2 := set_index sc1 (Z.of_nat (length (ryref_images sc1)) - 1) in
  FINISHED {| scene := sc2; _image_cache := _image_cache st |}.

(** ** Sessions *)

(** What happens to the state between load and unload of the addon: the
    three operators, and redraws of the viewport.  A session records what
    the actions do to the state when the host calls they make outside a
    [try] ([tag_redraw], the gpu calls) go through; it says nothing about
    whether they do. *)
Inductive Action :=
| DoAdd (path : string)
| DoRemove
| DoMove (direction : Direction)
| DoDraw (host : Host).

Definition run_action (os_path : OsPath) (a : Action) (st : State) : Outcome :=
  match a with
  | DoAdd path => add_image_execute os_path path st
  | DoRemove => remove_image_execute st
  | DoMove direction => move_image_execute direction st
  | DoDraw host =>
    FINISHED {| scene := scene st;
                _image_cache :=
                  (draw_overlay host (scene st) (_image_cache st)).1 |}
  end.

Fixpoint run_actions (os_path : OsPath) (acts : list Action) (st : State)
  : Outcome :=
  match acts with
  | [] => FINISHED st
  | a :: rest =>
    match run_action os_path a st with
    | FINISHED st1 => run_actions os_path rest st1
    | Raised exn => Raised exn
    end
  end.

(** The selected index points at a record, or the list is empty and the
    index is 0. *)
Definition index_ok (st : State) : Prop :=
  (ryref_images (scene st) = [] /\ ryref_index (scene st) = 0) \/
  0 <= ryref_index (scene st) < Z.of_nat (length (ryref_images (scene st))).

(** Every cached path is the path of a record of the list. *)
Definition cache_covered (st : State) : Prop :=
  forall path, is_Some (_image_cache st !! path) ->
  exists r, r ∈ ryref_images (scene st) /\ filepath r = path.

(** ** tag_redraw *)

(** An area of [bpy.context.screen.areas]: its [type], and whether a redraw
    has been requested for it. *)
Record Area := mkArea {
  area_type : string;
  redraw_tagged : bool
}.

(** [def tag_redraw()] (lines 23-26). *)
Definition tag_redraw (areas : list Area) : list Area :=
  map (fun area =>
         if String.eqb (area_type area) "VIEW_3D"
         then {| area_type := area_type area; redraw_tagged := true |}
         else area) areas.

(** ** Load and unload of the addon *)

Definition Handle := positive.

(** The calls [register] and [unregister] make into the host. *)
Inductive HostCall :=
| RegisterClass (cls : string)
| UnregisterClass (cls : string)
| SetSceneProp (prop : string)
| DelSceneProp (prop : string)
| DrawHandlerAdd (handle : Handle)
| DrawHandlerRemove (handle : Handle).

(** [classes] (lines 252-259). *)
Definition classes : list string :=
  [ "RyRefImage"; "RYREF_OT_add_image"; "RYREF_OT_remove_image";
    "RYREF_OT_move_image"; "RYREF_UL_ImageList"; "RYREF_PT_panel" ].

(** The module globals [_draw_handle] and [_image_cache]. *)
Record Globals := mkGlobals {
  _draw_handle : option Handle;
  image_cache : Cache
}.

(** [def register()] (lines 261-274); [new_handle] is what
    [draw_handler_add] returns. *)
Definition register (new_handle : Handle) (g : Globals)
  : Globals * list HostCall :=
  ({| _draw_handle := Some new_handle; image_cache := image_cache g |},
   map RegisterClass classes ++
   [ SetSceneProp "ryref_images"; SetSceneProp "ryref_index";
     SetSceneProp "ryref_references_on"; DrawHandlerAdd new_handle ]).

(** [def unregister()] (lines 276-289), for an addon that is registered:
    the [del] of a property that is not there raises, which is outside this
    model. *)
Definition unregister (g : Globals) : Globals * list HostCall :=
  let removal :=
    match _draw_handle g with
    | Some handle => [DrawHandlerRemove handle]
    | None => []
    end in
  ({| _draw_handle := None; image_cache := ∅ |},
   removal ++
   [ DelSceneProp "ryref_images"; DelSceneProp "ryref_index";
     DelSceneProp "ryref_references_on" ] ++
   map UnregisterClass (rev classes)).

(** What the host has on record: registered classes, properties attached to
    [Scene], installed draw handlers. *)
Record Registry := mkRegistry {
  reg_classes : gset string;
  reg_props : gset string;
  reg_handlers : gset Handle
}.

Definition host_call (r : Registry) (c : HostCall) : Registry :=
  match c with
  | RegisterClass cls =>
    {| reg_classes := {[cls]} ∪ reg_classes r; reg_props := reg_props r;
       reg_handlers := reg_handlers r |}
  | UnregisterClass cls =>
    {| reg_classes := reg_classes r ∖ {[cls]}; reg_props := reg_props r;
       reg_handlers := reg_handlers r |}
  | SetSceneProp prop =>
    {| reg_classes := reg_classes r; reg_props := {[prop]} ∪ reg_props r;
       reg_handlers := reg_handlers r |}
  | DelSceneProp prop =>
    {| reg_classes := reg_classes r; reg_props := reg_props r ∖ {[prop]};
       reg_handlers := reg_handlers r |}
  | DrawHandlerAdd handle =>
    {| reg_classes := reg_classes r; reg_props := reg_props r;
       reg_handlers := {[handle]} ∪ reg_handlers r |}
  | DrawHandlerRemove handle =>
    {| reg_classes := reg_classes r; reg_props := reg_props r;
       reg_handlers := reg_handlers r ∖ {[handle]} |}
  end.

Definition host_calls (r : Registry) (cs : list HostCall) : Registry :=
  foldl host_call r cs.

(** ** Caches reached within one frame *)

(** [cache] is [cache0] plus entries the host's loader gives. *)
Definition extends (host : Host) (cache0 cache : Cache) : Prop :=
  forall path,
    cache !! path = cache0 !! path \/
    (cache0 !! path = None /\ cache !! path = (try_load host path).2).

(** ** Counting load attempts *)

(** The calls of [bpy.data.images.load] a trace makes on [path]. *)
Definition attempts (path : string) (evs : list Event) : nat :=
  length (List.filter
            (fun ev => match ev with
                       | ImagesLoad p => String.eqb p path
                       | _ => false
                       end) evs).

(** The visible records of the list that have the path. *)
Definition users (images : list RyRefImage) (path : string) : nat :=
  length (List.filter
            (fun r => visible r && String.eqb (filepath r) path) images).

(** ** More sample data *)

Module SampleOs.

Import Stdlib.Strings.Ascii.

(** [os.path] on a POSIX system ([posixpath]), for the examples. *)

(** [p.rfind(c)]: the index of the last [c] in [p], -1 if there is none. *)
Fixpoint rfind_from (c : Ascii.ascii) (p : string) (i last : Z) : Z :=
  match p with
  | EmptyString => last
  | String a rest =>
    rfind_from c rest (i + 1) (if Ascii.eqb a c then i else last)
  end.

Definition rfind (c : Ascii.ascii) (p : string) : Z := rfind_from c p 0 (-1).

(** [p[i:j]] for [0 <= i <= j]. *)
Definition slice (i j : Z) (p : string) : string :=
  String.substring (Z.to_nat i) (Z.to_nat (j - i)) p.

Definition len (p : string) : Z := Z.of_nat (String.length p).

(** [posixpath.basename]: what follows the last slash. *)
Definition posix_basename (p : string) : string :=
  slice (rfind "/"%char p + 1) (len p) p.

(** [posixpath.splitext]: split at the last dot, unless it comes before the
    last slash or has only dots between that slash and itself. *)
Definition posix_splitext (p : string) : string * string :=
  let sepIndex := rfind "/"%char p in
  let dotIndex := rfind "."%char p in
  if (sepIndex <? dotIndex)
     && existsb (fun a => negb (Ascii.eqb a "."%char))
          (String.list_ascii_of_string (slice (sepIndex + 1) dotIndex p))
  then (slice 0 dotIndex p, slice dotIndex (len p) p)
  else (p, "").

Definition os_path : OsPath :=
  {| basename := posix_basename; splitext := posix_splitext |}.

Definition state (images : list RyRefImage) (index : Z) (cache : Cache)
  : State :=
  {| scene := Sample.on_scene images index; _image_cache := cache |}.

(** What the loader gives for a file that is there but is not an image: an
    image object without pixel data, of size 0x0; nothing is raised. *)
Definition garbage : Image := {| has_data := false; image_size := (0, 0) |}.

(** ["garbage.png"] loads as [garbage], every other file as [Sample.photo]. *)
Definition host_garbage : Host :=
  {| images_load := fun p =>
       if String.eqb p "garbage.png" then Some garbage else Some Sample.photo;
     gl_load := fun i => Some i;
     texture_from_image := fun _ => Some 2%positive |}.

End SampleOs.

(** ** The kernel's binary64 floats, to check the rounding against *)

Module Binary64.

Import Corelib.Floats.PrimFloat Corelib.Floats.SpecFloat Corelib.Floats.FloatOps.

(** The rational a finite binary64 denotes. *)
Definition to_Q (f : float) : option Q :=
  match Prim2SF f with
  | S754_zero _ => Some 0%Q
  | S754_finite s m e =>
    let r := (inject_Z (Zpos m) * Qpower 2 e)%Q in
    Some (Qred (if s then - r else r)%Q)
  | _ => None
  end.

(** 0.2 as a binary32: 0x1.99999ap-3. *)
Definition stored_0_2 : float := 0x1.99999ap-3%float.

(** Lines 109-116 on machine floats, for a 500x300 image at (100, 100). *)
Definition corner_x : float := (100 + 500 * stored_0_2)%float.
Definition corner_y : float := (100 + 300 * stored_0_2)%float.

(** Two computations that round. *)
Definition sum_of_tenths : float := (1 / 10 + 2 / 10)%float.
Definition product_of_thirds : float := (1 / 3 * - (7 / 3))%float.

End Binary64.

(** * Properties *)

(** ** The [try] block *)

Lemma try_load_fail_no_store host path :
  (try_load host path).2 = None ->
  stores_of path (try_load host path).1 = 0%nat /\
  batches (try_load host path).1 = [].
Proof.
  unfold try_load, stores_of.
  destruct (images_load host path) as [i0|]; [|done].
  destruct (gl_load host i0) as [i|]; [|done].
  destruct (texture_from_image host i); done.
Qed.

Lemma try_load_ok_store host path entry :
  (try_load host path).2 = Some entry ->
  stores_of path (try_load host path).1 = 1%nat /\
  batches (try_load host path).1 = [].
Proof.
  unfold try_load, stores_of.
  destruct (images_load host path) as [i0|]; [|done].
  destruct (gl_load host i0) as [i|]; [|done].
  destruct (texture_from_image host i); [|done].
  intros _. cbn. by rewrite String.eqb_refl.
Qed.

Lemma try_load_begins host path :
  exists evs, (try_load host path).1 = ImagesLoad path :: evs.
Proof.
  unfold try_load.
  destruct (images_load host path) as [i0|]; [|by eexists].
  destruct (gl_load host i0) as [i|]; [|by eexists].
  destruct (texture_from_image host i); by eexists.
Qed.

Lemma try_load_other host path q :
  q <> path ->
  loads_of q (try_load host path).1 = [] /\
  stores_of q (try_load host path).1 = 0%nat.
Proof.
  intros Hne. apply String.eqb_neq in Hne. rewrite String.eqb_sym in Hne.
  unfold try_load, loads_of, stores_of.
  destruct (images_load host path) as [i0|]; cbn; rewrite ?Hne; [|done].
  destruct (gl_load host i0) as [i|]; cbn; rewrite ?Hne; [|done].
  destruct (texture_from_image host i); cbn; rewrite ?Hne; done.
Qed.

(** ** One quad *)

Lemma draw_quad_no_load img_data image gpu_tex q :
  loads_of q (draw_quad img_data image gpu_tex) = [] /\
  stores_of q (draw_quad img_data image gpu_tex) = 0%nat.
Proof.
  unfold draw_quad.
  destruct (negb (has_data image) || ((image_size image).1 =? 0)
            || ((image_size image).2 =? 0)); [done|].
  destruct (position img_data), (scale img_data). done.
Qed.

Lemma draw_quad_skip img_data image gpu_tex :
  has_data image = false \/ (image_size image).1 = 0 \/ (image_size image).2 = 0 ->
  draw_quad img_data image gpu_tex = [].
Proof.
  unfold draw_quad. intros [-> | [-> | ->]]; [done| |].
  - by rewrite Z.eqb_refl, orb_true_r.
  - by rewrite Z.eqb_refl, orb_true_r.
Qed.

(** The quad of a record whose image passes the guard of line 103. *)
Lemma draw_quad_batches img_data image gpu_tex :
  has_data image = true ->
  (image_size image).1 <> 0 -> (image_size image).2 <> 0 ->
  batches (draw_quad img_data image gpu_tex) =
  [ {| pos :=
         coords (position img_data).1 (position img_data).2
           (fmul (float_of_int (image_size image).1) (scale img_data).1)
           (fmul (float_of_int (image_size image).2) (scale img_data).2);
       texCoord := uvs (flip_x img_data) (flip_y img_data);
       indices := [(0, 1, 2); (2, 3, 0)]%nat |} ].
Proof.
  intros Hd Hw Hh. unfold draw_quad. rewrite Hd.
  apply Z.eqb_neq in Hw, Hh. rewrite Hw, Hh. cbn.
  destruct (position img_data), (scale img_data). done.
Qed.

(** ** One record *)

Lemma draw_image_hidden host img_data cache :
  visible img_data = false -> draw_image host img_data cache = (cache, []).
Proof. unfold draw_image. by intros ->. Qed.

Lemma draw_image_cached host img_data cache image gpu_tex :
  visible img_data = true ->
  cache !! filepath img_data = Some (image, gpu_tex) ->
  draw_image host img_data cache = (cache, draw_quad img_data image gpu_tex).
Proof. unfold draw_image. intros Hv Hc. rewrite Hv. cbn. by rewrite Hc. Qed.

Lemma draw_image_fail host img_data cache :
  visible img_data = true ->
  cache !! filepath img_data = None ->
  (try_load host (filepath img_data)).2 = None ->
  draw_image host img_data cache = (cache, (try_load host (filepath img_data)).1).
Proof.
  unfold draw_image. intros Hv Hc. rewrite Hv. cbn. rewrite Hc.
  destruct (try_load host (filepath img_data)) as [evs [e|]]; by cbn.
Qed.

Lemma draw_image_fresh host img_data cache image gpu_tex :
  visible img_data = true ->
  cache !! filepath img_data = None ->
  (try_load host (filepath img_data)).2 = Some (image, gpu_tex) ->
  draw_image host img_data cache =
  (<[filepath img_data := (image, gpu_tex)]> cache,
   (try_load host (filepath img_data)).1 ++ draw_quad img_data image gpu_tex).
Proof.
  unfold draw_image. intros Hv Hc. rewrite Hv. cbn. rewrite Hc.
  destruct (try_load host (filepath img_data)) as [evs [[i t]|]]; cbn; [|done].
  by intros [= -> ->].
Qed.

(** The four ways through the loop body. *)
Lemma draw_image_cases host img_data cache :
  (visible img_data = false /\ draw_image host img_data cache = (cache, [])) \/
  (exists image gpu_tex,
     visible img_data = true /\
     cache !! filepath img_data = Some (image, gpu_tex) /\
     draw_image host img_data cache =
     (cache, draw_quad img_data image gpu_tex)) \/
  (visible img_data = true /\ cache !! filepath img_data = None /\
   (try_load host (filepath img_data)).2 = None /\
   draw_image host img_data cache =
   (cache, (try_load host (filepath img_data)).1)) \/
  (exists image gpu_tex,
     visible img_data = true /\ cache !! filepath img_data = None /\
     (try_load host (filepath img_data)).2 = Some (image, gpu_tex) /\
     draw_image host img_data cache =
     (<[filepath img_data := (image, gpu_tex)]> cache,
      (try_load host (filepath img_data)).1 ++
      draw_quad img_data image gpu_tex)).
Proof.
  destruct (visible img_data) eqn:Hv.
  - right.
    destruct (cache !! filepath img_data) as [[i t]|] eqn:Hc.
    + left. exists i, t. auto using draw_image_cached.
    + right.
      destruct (try_load host (filepath img_data)).2 as [[i t]|] eqn:Hl.
      * right. exists i, t. auto using draw_image_fresh.
      * left. auto using draw_image_fail.
  - left. auto using draw_image_hidden.
Qed.

(** A cache entry is never overwritten or dropped by the loop body, and no
    decode or upload is issued for a path that has one. *)
Lemma draw_image_keeps host img_data cache q entry :
  cache !! q = Some entry ->
  (draw_image host img_data cache).1 !! q = Some entry /\
  loads_of q (draw_image host img_data cache).2 = [].
Proof.
  intros Hq.
  destruct (draw_image_cases host img_data cache)
    as [[_ ->] | [(i & t & _ & _ & ->) | [(_ & Hc & _ & ->) |
        (i & t & _ & Hc & _ & ->)]]]; cbn.
  - done.
  - split; [done|]. apply draw_quad_no_load.
  - split; [done|]. apply try_load_other. congruence.
  - assert (q <> filepath img_data) as Hne by congruence.
    split; [by rewrite lookup_insert_ne|].
    unfold loads_of. rewrite List.filter_app.
    fold (loads_of q (try_load host (filepath img_data)).1).
    fold (loads_of q (draw_quad img_data i t)).
    destruct (try_load_other host _ q Hne) as [-> _].
    by destruct (draw_quad_no_load img_data i t q) as [-> _].
Qed.

(** Each completed decode-and-upload turns one uncached path into a cached
    one. *)
Lemma draw_image_stores host img_data cache q :
  (stores_of q (draw_image host img_data cache).2 + cached cache q)%nat =
  cached (draw_image host img_data cache).1 q.
Proof.
  assert (forall a b, stores_of q (a ++ b) = (stores_of q a + stores_of q b)%nat)
    as Happ.
  { intros a b. unfold stores_of. by rewrite List.filter_app, length_app. }
  destruct (draw_image_cases host img_data cache)
    as [[_ ->] | [(i & t & _ & _ & ->) | [(_ & Hc & Hl & ->) |
        (i & t & _ & Hc & Hl & ->)]]]; cbn [fst snd].
  - done.
  - by destruct (draw_quad_no_load img_data i t q) as [_ ->].
  - destruct (decide (q = filepath img_data)) as [->|Hne].
    + by destruct (try_load_fail_no_store host _ Hl) as [-> _].
    + by destruct (try_load_other host _ q Hne) as [_ ->].
  - rewrite Happ. destruct (draw_quad_no_load img_data i t q) as [_ ->].
    unfold cached.
    destruct (decide (q = filepath img_data)) as [->|Hne].
    + destruct (try_load_ok_store host _ _ Hl) as [-> _].
      by rewrite Hc, lookup_insert_eq.
    + destruct (try_load_other host _ q Hne) as [_ ->].
      by rewrite lookup_insert_ne.
Qed.

(** ** The loop *)

Lemma stores_of_app q (a b : list Event) :
  stores_of q (a ++ b) = (stores_of q a + stores_of q b)%nat.
Proof. unfold stores_of. by rewrite List.filter_app, length_app. Qed.

Lemma loads_of_app q (a b : list Event) :
  loads_of q (a ++ b) = loads_of q a ++ loads_of q b.
Proof. apply List.filter_app. Qed.

Lemma batches_app (a b : list Event) :
  batches (a ++ b) = batches a ++ batches b.
Proof. apply omap_app. Qed.

Lemma draw_images_cons host img_data rest cache :
  draw_images host (img_data :: rest) cache =
  ((draw_images host rest (draw_image host img_data cache).1).1,
   (draw_image host img_data cache).2 ++
   (draw_images host rest (draw_image host img_data cache).1).2).
Proof.
  cbn [draw_images]. destruct (draw_image host img_data cache) as [c1 e1].
  cbn [fst snd]. by destruct (draw_images host rest c1).
Qed.

(** Drawing [l1 ++ l2] is drawing [l1], then [l2] from the cache [l1] left. *)
Lemma draw_images_app host l1 l2 cache :
  draw_images host (l1 ++ l2) cache =
  ((draw_images host l2 (draw_images host l1 cache).1).1,
   (draw_images host l1 cache).2 ++
   (draw_images host l2 (draw_images host l1 cache).1).2).
Proof.
  revert cache. induction l1 as [|r l1 IH]; intros cache.
  - cbn. by destruct (draw_images host l2 cache).
  - rewrite <- app_comm_cons, !draw_images_cons, IH. cbn [fst snd].
    by rewrite app_assoc.
Qed.

Lemma draw_images_keeps host images cache q entry :
  cache !! q = Some entry ->
  (draw_images host images cache).1 !! q = Some entry /\
  loads_of q (draw_images host images cache).2 = [].
Proof.
  revert cache. induction images as [|r l IH]; intros cache Hq; [done|].
  rewrite draw_images_cons. cbn [fst snd].
  destruct (draw_image_keeps host r cache q entry Hq) as [Hc Hl].
  destruct (IH _ Hc) as [Hc' Hl'].
  split; [done|]. by rewrite loads_of_app, Hl, Hl'.
Qed.

Lemma draw_images_stores host images cache q :
  (stores_of q (draw_images host images cache).2 + cached cache q)%nat =
  cached (draw_images host images cache).1 q.
Proof.
  revert cache. induction images as [|r l IH]; intros cache; [done|].
  rewrite draw_images_cons. cbn [fst snd].
  rewrite stores_of_app, <- IH, <- draw_image_stores. lia.
Qed.

(** Within one frame a path whose load fails stays out of the cache, whatever
    else is drawn. *)
Lemma draw_images_fail_stays host images cache q :
  (try_load host q).2 = None ->
  cache !! q = None ->
  (draw_images host images cache).1 !! q = None.
Proof.
  intros Hfail. revert cache.
  induction images as [|r l IH]; intros cache Hq; [done|].
  rewrite draw_images_cons. cbn [fst]. apply IH.
  destruct (draw_image_cases host r cache)
    as [[_ ->] | [(i & t & _ & _ & ->) | [(_ & _ & _ & ->) |
        (i & t & _ & _ & Hl & ->)]]]; cbn [fst]; try done.
  rewrite lookup_insert_ne; [done|]. congruence.
Qed.

(** A visible record whose path is not cached makes the frame call
    [bpy.data.images.load] on that path. *)
Lemma draw_images_reloads host images cache img_data :
  img_data ∈ images ->
  visible img_data = true ->
  cache !! filepath img_data = None ->
  ImagesLoad (filepath img_data) ∈ (draw_images host images cache).2.
Proof.
  intros Hin Hv. revert cache.
  induction images as [|r l IH]; intros cache Hq; [by apply elem_of_nil in Hin|].
  rewrite draw_images_cons. cbn [snd]. apply elem_of_app.
  destruct (try_load_begins host (filepath img_data)) as [evs Hevs].
  apply elem_of_cons in Hin as [<- | Hin].
  - left.
    destruct (draw_image_cases host img_data cache)
      as [[? _] | [(i & t & _ & ? & _) | [(_ & _ & _ & ->) |
          (i & t & _ & _ & _ & ->)]]]; cbn [snd]; try congruence.
    + rewrite Hevs. apply elem_of_cons. by left.
    + rewrite Hevs. apply elem_of_cons. by left.
  - destruct ((draw_image host r cache).1 !! filepath img_data) eqn:Hc1.
    + left.
      destruct (draw_image_cases host r cache)
        as [[_ Hd] | [(i & t & _ & _ & Hd) | [(_ & _ & _ & Hd) |
            (i & t & _ & _ & _ & Hd)]]]; rewrite Hd in Hc1 |- *;
        cbn [fst snd] in *; try congruence.
      destruct (decide (filepath r = filepath img_data)) as [Heq|Hne].
      * rewrite Heq, Hevs. apply elem_of_cons. by left.
      * rewrite lookup_insert_ne in Hc1 by done. congruence.
    + right. by apply IH.
Qed.

(** ** Frames *)

Lemma draw_overlay_on host sc cache :
  ryref_references_on sc = true ->
  draw_overlay host sc cache = draw_images host (ryref_images sc) cache.
Proof. unfold draw_overlay. by intros ->. Qed.

Lemma draw_overlay_off host sc cache :
  ryref_references_on sc = false -> draw_overlay host sc cache = (cache, []).
Proof. unfold draw_overlay. by intros ->. Qed.

Lemma draw_overlay_keeps host sc cache q entry :
  cache !! q = Some entry ->
  (draw_overlay host sc cache).1 !! q = Some entry /\
  loads_of q (draw_overlay host sc cache).2 = [].
Proof.
  unfold draw_overlay. destruct (negb (ryref_references_on sc)); [done|].
  apply draw_images_keeps.
Qed.

Lemma draw_overlay_stores host sc cache q :
  (stores_of q (draw_overlay host sc cache).2 + cached cache q)%nat =
  cached (draw_overlay host sc cache).1 q.
Proof.
  unfold draw_overlay. destruct (negb (ryref_references_on sc)); [done|].
  apply draw_images_stores.
Qed.

Lemma run_frames_cons host sc rest cache :
  run_frames ((host, sc) :: rest) cache =
  ((run_frames rest (draw_overlay host sc cache).1).1,
   (draw_overlay host sc cache).2 ++
   (run_frames rest (draw_overlay host sc cache).1).2).
Proof.
  cbn [run_frames]. destruct (draw_overlay host sc cache) as [c1 e1].
  cbn [fst snd]. by destruct (run_frames rest c1).
Qed.

Lemma run_frames_app fs1 fs2 cache :
  run_frames (fs1 ++ fs2) cache =
  ((run_frames fs2 (run_frames fs1 cache).1).1,
   (run_frames fs1 cache).2 ++ (run_frames fs2 (run_frames fs1 cache).1).2).
Proof.
  revert cache. induction fs1 as [|[h sc] fs1 IH]; intros cache.
  - cbn. by destruct (run_frames fs2 cache).
  - rewrite <- app_comm_cons, !run_frames_cons, IH. cbn [fst snd].
    by rewrite app_assoc.
Qed.

Lemma run_frames_keeps frames cache q entry :
  cache !! q = Some entry ->
  (run_frames frames cache).1 !! q = Some entry /\
  loads_of q (run_frames frames cache).2 = [].
Proof.
  revert cache. induction frames as [|[h sc] fs IH]; intros cache Hq; [done|].
  rewrite run_frames_cons. cbn [fst snd].
  destruct (draw_overlay_keeps h sc cache q entry Hq) as [Hc Hl].
  destruct (IH _ Hc) as [Hc' Hl'].
  split; [done|]. by rewrite loads_of_app, Hl, Hl'.
Qed.

Lemma run_frames_stores frames cache q :
  (stores_of q (run_frames frames cache).2 + cached cache q)%nat =
  cached (run_frames frames cache).1 q.
Proof.
  revert cache. induction frames as [|[h sc] fs IH]; intros cache; [done|].
  rewrite run_frames_cons. cbn [fst snd].
  rewrite stores_of_app, <- IH, <- draw_overlay_stores. lia.
Qed.

Lemma cached_le_1 cache q : (cached cache q <= 1)%nat.
Proof. unfold cached. destruct (cache !! q); lia. Qed.

(** ** The host collection *)

Lemma coll_move_up {A} (pre post : list A) (a b : A) (key : Z) :
  key = Z.of_nat (length pre) + 1 ->
  coll_move (pre ++ a :: b :: post) key (key - 1) = pre ++ b :: a :: post.
Proof.
  intros ->. unfold coll_move. rewrite length_app. cbn [length].
  replace (Z.of_nat (length pre) + 1 - 1) with (Z.of_nat (length pre)) by lia.
  replace (Z.to_nat (Z.of_nat (length pre) + 1)) with (S (length pre)) by lia.
  rewrite Nat2Z.id. guard_is true.
  change (pre ++ a :: b :: post) with (pre ++ [a] ++ b :: post).
  rewrite app_assoc.
  replace (S (length pre)) with (length (pre ++ [a]))
    by (rewrite length_app; cbn; lia).
  rewrite list_lookup_middle by done.
  rewrite delete_middle. rewrite <- app_assoc. cbn [app].
  by rewrite take_app_length, drop_app_length.
Qed.

Lemma coll_move_down {A} (pre post : list A) (a b : A) (key : Z) :
  key = Z.of_nat (length pre) ->
  coll_move (pre ++ a :: b :: post) key (key + 1) = pre ++ b :: a :: post.
Proof.
  intros ->. unfold coll_move. rewrite length_app. cbn [length].
  replace (Z.to_nat (Z.of_nat (length pre) + 1)) with (S (length pre)) by lia.
  rewrite Nat2Z.id. guard_is true.
  rewrite list_lookup_middle by done.
  rewrite delete_middle.
  change (pre ++ b :: post) with (pre ++ [b] ++ post).
  rewrite app_assoc.
  replace (S (length pre)) with (length (pre ++ [b]))
    by (rewrite length_app; cbn; lia).
  rewrite take_app_length, drop_app_length. by rewrite <- app_assoc.
Qed.

Lemma coll_move_out_of_range {A} (l : list A) (key pos : Z) :
  ~ (0 <= key < Z.of_nat (length l)) -> coll_move l key pos = l.
Proof. intros Hr. unfold coll_move. by guard_is false. Qed.

Lemma coll_remove_in_range {A} (l : list A) (key : Z) :
  0 <= key < Z.of_nat (length l) ->
  coll_remove l key = delete (Z.to_nat key) l.
Proof. intros Hr. unfold coll_remove. by guard_is true. Qed.

(** Two neighbours of a list, by the index of the first. *)
Lemma split_neighbours {A} (l : list A) (n : nat) :
  (S n < length l)%nat ->
  exists pre a b post, l = pre ++ a :: b :: post /\ length pre = n.
Proof.
  intros Hn.
  destruct (lookup_lt_is_Some_2 l n) as [a Ha]; [lia|].
  apply list_elem_of_split_length in Ha as (pre & rest & -> & ->).
  rewrite length_app in Hn. cbn in Hn.
  destruct rest as [|b post]; [cbn in Hn; lia|].
  by exists pre, a, b, post.
Qed.

(** * The claims *)

(** ** Global toggle *)

(** C5. With the global flag [ryref_references_on] false, [draw_overlay]
    returns at once: it issues no host call at all (so no draw call), and the
    cache is left as it was, whatever the records and the cache are, also
    for records that are themselves visible. *)
Theorem draw_overlay_disabled host sc cache :
  ryref_references_on sc = false ->
  draw_overlay host sc cache = (cache, []) /\
  batches (draw_overlay host sc cache).2 = [].
Proof. intros Hoff. by rewrite draw_overlay_off. Qed.

Lemma draw_overlay_disabled_witness :
  ryref_references_on (Sample.off_scene [Sample.added "ref" "a.png"] 0) = false /\
  visible (Sample.added "ref" "a.png") = true /\
  draw_overlay (Sample.host_of Sample.photo)
    (Sample.off_scene [Sample.added "ref" "a.png"] 0) ∅ = (∅, []).
Proof.
  split; [reflexivity|]. split; [reflexivity|].
  apply (draw_overlay_disabled (Sample.host_of Sample.photo)
           (Sample.off_scene [Sample.added "ref" "a.png"] 0) ∅).
  reflexivity.
Defined.

(** ** Hidden records *)

(** C6. A record with [visible] false is skipped entirely: its loop iteration
    issues no host call (no load, no upload, no draw) and leaves the cache
    as it is, for every host and every cache; and a frame over a list that
    contains the record leaves the same cache and the same trace as the frame
    over the list without it. *)
Theorem draw_overlay_skips_hidden host sc cache pre img_data post :
  visible img_data = false ->
  ryref_images sc = pre ++ img_data :: post ->
  (forall cache', draw_image host img_data cache' = (cache', [])) /\
  draw_overlay host sc cache =
  draw_overlay host (set_images sc (pre ++ post)) cache.
Proof.
  intros Hv Himgs. split.
  - intros cache'. by apply draw_image_hidden.
  - unfold draw_overlay. cbn [set_images ryref_references_on ryref_images].
    destruct (negb (ryref_references_on sc)); [done|].
    rewrite Himgs, !draw_images_app, draw_images_cons.
    by rewrite draw_image_hidden.
Qed.

Lemma draw_overlay_skips_hidden_witness :
  visible (Sample.hidden "ref" "a.png") = false /\
  draw_overlay (Sample.host_of Sample.photo)
    (Sample.on_scene [Sample.hidden "ref" "a.png"] 0)
    (Sample.cache_a Sample.photo) =
  (Sample.cache_a Sample.photo, []).
Proof.
  split; [reflexivity|].
  pose proof (draw_overlay_skips_hidden (Sample.host_of Sample.photo)
    (Sample.on_scene [Sample.hidden "ref" "a.png"] 0)
    (Sample.cache_a Sample.photo) [] (Sample.hidden "ref" "a.png") []
    eq_refl eq_refl) as [_ H].
  exact H.
Defined.

(** ** Texture coordinates *)

(** C3. The UVs are the unit square (0,0),(1,0),(1,1),(0,1) with every u
    replaced by 1-u when [flip_x] is set and every v by 1-v when [flip_y] is
    set, each flip acting on its own axis; flip_x alone gives
    (1,0),(0,0),(0,1),(1,1), both flips give (1,1),(0,1),(0,0),(1,0); and
    these are the [texCoord] of every batch a record draws. *)
Theorem uvs_flips :
  (forall fx fy,
     uvs fx fy =
     map (fun '(u, v) => (if fx then 1 - u else u, if fy then 1 - v else v))
       [(0, 0); (1, 0); (1, 1); (0, 1)]) /\
  uvs false false = [(0, 0); (1, 0); (1, 1); (0, 1)] /\
  uvs true false = [(1, 0); (0, 0); (0, 1); (1, 1)] /\
  uvs true true = [(1, 1); (0, 1); (0, 0); (1, 0)] /\
  (forall img_data image gpu_tex,
     Forall (fun b => texCoord b = uvs (flip_x img_data) (flip_y img_data))
       (batches (draw_quad img_data image gpu_tex))).
Proof.
  split; [by intros [] []|]. repeat (split; [reflexivity|]).
  intros img_data image gpu_tex. unfold draw_quad.
  destruct (_ || _); [constructor|].
  destruct (position img_data), (scale img_data). cbn.
  by repeat constructor.
Qed.

(** ** Quad geometry *)

Lemma resolve_draw_image host img_data cache image gpu_tex :
  visible img_data = true ->
  resolve host cache (filepath img_data) = Some (image, gpu_tex) ->
  batches (draw_image host img_data cache).2 =
  batches (draw_quad img_data image gpu_tex) /\
  (draw_image host img_data cache).1 !! filepath img_data =
  Some (image, gpu_tex).
Proof.
  unfold resolve. intros Hv Hres.
  destruct (cache !! filepath img_data) as [e|] eqn:Hc.
  - injection Hres as ->.
    by rewrite (draw_image_cached host img_data cache image gpu_tex).
  - rewrite (draw_image_fresh host img_data cache image gpu_tex) by done.
    cbn [fst snd]. rewrite batches_app, lookup_insert_eq.
    by destruct (try_load_ok_store host _ _ Hres) as [_ ->].
Qed.

(** The batches of a frame, split around one record of the list. *)
Lemma draw_overlay_batches_split host sc cache pre img_data post :
  ryref_references_on sc = true ->
  ryref_images sc = pre ++ img_data :: post ->
  batches (draw_overlay host sc cache).2 =
  batches (draw_images host pre cache).2 ++
  batches (draw_image host img_data (draw_images host pre cache).1).2 ++
  batches (draw_images host post
    (draw_image host img_data (draw_images host pre cache).1).1).2.
Proof.
  intros Hon Himgs.
  rewrite draw_overlay_on, Himgs, draw_images_app, draw_images_cons by done.
  cbn [fst snd]. by rewrite !batches_app.
Qed.

(** C2, as the code has it.  In an enabled frame, a visible record whose
    image resolves (from the cache or by a successful load), has its pixel
    data loaded ([has_data]) and has width w > 0 and height h > 0, gets
    exactly one quad, drawn after those of the records before it and before
    those of the records after it, with corners (x,y), (x+w*sx,y),
    (x+w*sx,y+h*sy), (x,y+h*sy), the products and sums being those of
    Python floats.  For position (100,100), a 500x300 image and the scale
    (0.2,0.2) as the property stores it, 13421773/67108864 =
    0.20000000298023224, the corners are (100,100),
    (200.00000149011612,100), (200.00000149011612,160.00000089406967),
    (100,160.00000089406967), exactly 3355443225/16777216 and
    2684354575/16777216, and not (200,100), (200,160), (100,160). *)
Theorem draw_overlay_quad_corners
  host sc cache pre img_data post image gpu_tex :
  ryref_references_on sc = true ->
  ryref_images sc = pre ++ img_data :: post ->
  visible img_data = true ->
  resolve host (draw_images host pre cache).1 (filepath img_data) =
    Some (image, gpu_tex) ->
  has_data image = true ->
  0 < (image_size image).1 ->
  0 < (image_size image).2 ->
  exists quad,
    batches (draw_overlay host sc cache).2 =
      batches (draw_images host pre cache).2 ++
      quad ::
      batches (draw_images host post
        (draw_image host img_data (draw_images host pre cache).1).1).2 /\
    pos quad =
      (let x := (position img_data).1 in
       let y := (position img_data).2 in
       let sx := (scale img_data).1 in
       let sy := (scale img_data).2 in
       let w := float_of_int (image_size image).1 in
       let h := float_of_int (image_size image).2 in
       [ (x, y);
         (fadd x (fmul w sx), y);
         (fadd x (fmul w sx), fadd y (fmul h sy));
         (x, fadd y (fmul h sy)) ]) /\
    (position img_data = (100, 100)%Q ->
     scale img_data = (f32 0.2, f32 0.2) ->
     image_size image = (500, 300) ->
     f32 0.2 = (13421773 # 67108864)%Q /\
     corners_eq (pos quad)
       [ (100, 100);
         (3355443225 # 16777216, 100);
         (3355443225 # 16777216, 2684354575 # 16777216);
         (100, 2684354575 # 16777216) ]%Q /\
     ~ corners_eq (pos quad)
         [(100, 100); (200, 100); (200, 160); (100, 160)]%Q).
Proof.
  intros Hon Himgs Hv Hres Hd Hw Hh.
  eexists. split; [|split].
  - rewrite (draw_overlay_batches_split host sc cache pre img_data post)
      by done.
    destruct (resolve_draw_image host img_data _ image gpu_tex Hv Hres)
      as [-> _].
    rewrite draw_quad_batches by (done || lia). reflexivity.
  - reflexivity.
  - intros Hp Hs Hsz. cbn [pos]. rewrite Hp, Hs, Hsz.
    split; [vm_compute; reflexivity|]. split.
    + vm_compute. repeat constructor.
    + intros H. apply Forall2_cons_1 in H as [_ H].
      apply Forall2_cons_1 in H as [[H _] _]. vm_compute in H. discriminate.
Qed.

Lemma draw_overlay_quad_corners_witness :
  exists quad,
    batches (draw_overlay (Sample.host_of Sample.photo)
               (Sample.on_scene [Sample.added "ref" "a.png"] 0) ∅).2 =
    [quad] /\
    corners_eq (pos quad)
      [ (100, 100);
        (3355443225 # 16777216, 100);
        (3355443225 # 16777216, 2684354575 # 16777216);
        (100, 2684354575 # 16777216) ]%Q.
Proof.
  destruct (draw_overlay_quad_corners (Sample.host_of Sample.photo)
    (Sample.on_scene [Sample.added "ref" "a.png"] 0) ∅
    [] (Sample.added "ref" "a.png") [] Sample.photo 1%positive)
    as (quad & Hb & _ & Hc);
    [reflexivity | reflexivity | reflexivity | vm_compute; reflexivity
    | reflexivity | reflexivity | reflexivity |].
  exists quad. split; [exact Hb|].
  exact (proj1 (proj2 (Hc eq_refl eq_refl eq_refl))).
Defined.

(** C2 as stated fails when the resolved image has no pixel data loaded:
    the record is visible and its 500x300 image resolves, yet the guard of
    line 103 skips it and the frame draws no quad. *)
Lemma quad_not_drawn_without_data :
  let img_data := Sample.added "ref" "a.png" in
  let host := Sample.host_of Sample.unloaded in
  let sc := Sample.on_scene [img_data] 0 in
  visible img_data = true /\
  resolve host ∅ (filepath img_data) = Some (Sample.unloaded, 1%positive) /\
  0 < (image_size Sample.unloaded).1 /\
  0 < (image_size Sample.unloaded).2 /\
  batches (draw_overlay host sc ∅).2 = [] /\
  batches (draw_overlay host sc (Sample.cache_a Sample.unloaded)).2 = [].
Proof. vm_compute. repeat split; reflexivity. Qed.

(** ** Load failures *)

(** Drawing a visible record whose path has no cache entry starts with a
    call of [bpy.data.images.load] on the path. *)
Lemma draw_image_uncached_begins host img_data cache :
  visible img_data = true ->
  cache !! filepath img_data = None ->
  exists evs,
    (draw_image host img_data cache).2 = ImagesLoad (filepath img_data) :: evs.
Proof.
  intros Hv Hc.
  destruct (try_load_begins host (filepath img_data)) as [evs Hevs].
  destruct (draw_image_cases host img_data cache)
    as [[? _] | [(i & t & _ & ? & _) | [(_ & _ & _ & ->) |
        (i & t & _ & _ & _ & ->)]]]; cbn [snd]; try congruence.
  - rewrite Hevs. by eexists.
  - rewrite Hevs. by eexists.
Qed.

(** ** Degenerate assets *)

(** C10. When a visible record with no cache entry loads successfully but the
    image has zero width or zero height, its iteration stores the entry under
    the path and then skips the record (load calls only, no draw).  From then
    on the entry stays: over any later frames, with any hosts and scenes, the
    path keeps that entry and no decode or upload is issued for it, and
    drawing the record from any cache that holds the entry does nothing. *)
Theorem draw_image_degenerate host img_data cache image gpu_tex :
  visible img_data = true ->
  cache !! filepath img_data = None ->
  (try_load host (filepath img_data)).2 = Some (image, gpu_tex) ->
  (image_size image).1 = 0 \/ (image_size image).2 = 0 ->
  let cache1 := (draw_image host img_data cache).1 in
  cache1 = <[filepath img_data := (image, gpu_tex)]> cache /\
  cache1 !! filepath img_data = Some (image, gpu_tex) /\
  (draw_image host img_data cache).2 = (try_load host (filepath img_data)).1 /\
  stores_of (filepath img_data) (draw_image host img_data cache).2 = 1%nat /\
  batches (draw_image host img_data cache).2 = [] /\
  (forall frames,
     (run_frames frames cache1).1 !! filepath img_data = Some (image, gpu_tex) /\
     loads_of (filepath img_data) (run_frames frames cache1).2 = []) /\
  (forall host' cache',
     cache' !! filepath img_data = Some (image, gpu_tex) ->
     draw_image host' img_data cache' = (cache', [])).
Proof.
  intros Hv Hc Hok Hzero cache1. subst cache1.
  rewrite (draw_image_fresh host img_data cache image gpu_tex) by done.
  cbn [fst snd].
  rewrite (draw_quad_skip img_data image gpu_tex) by auto.
  rewrite app_nil_r, lookup_insert_eq.
  destruct (try_load_ok_store host _ _ Hok) as [Hs Hb].
  split; [done|]. split; [done|]. split; [done|]. split; [done|].
  split; [done|]. split.
  - intros frames. apply run_frames_keeps. apply lookup_insert_eq.
  - intros host' cache' Hc'.
    rewrite (draw_image_cached host' img_data cache' image gpu_tex) by done.
    by rewrite draw_quad_skip by auto.
Qed.

Lemma draw_image_degenerate_witness :
  let img_data := Sample.added "ref" "a.png" in
  let host := Sample.host_of Sample.empty_image in
  (image_size Sample.empty_image).1 = 0 /\
  (draw_image host img_data ∅).1 !! "a.png" =
    Some (Sample.empty_image, 1%positive) /\
  batches (draw_image host img_data ∅).2 = [].
Proof.
  intros img_data host. split; [reflexivity|].
  assert ((∅ : Cache) !! filepath img_data = None) as Hc0
    by (vm_compute; reflexivity).
  assert ((try_load host (filepath img_data)).2 =
          Some (Sample.empty_image, 1%positive)) as Hok
    by (vm_compute; reflexivity).
  pose proof (draw_image_degenerate host img_data ∅ Sample.empty_image
    1%positive eq_refl Hc0 Hok (or_introl eq_refl)) as H.
  cbv zeta in H.
  destruct H as (_ & Hc & _ & _ & Hb & _).
  split; [exact Hc | exact Hb].
Defined.

(** ** Reuse of cache entries *)

(** C7. Over any sequence of frames (hosts and scenes may change from frame
    to frame, nothing evicts), every path sees at most one completed
    decode-and-upload, and none if it has an entry to begin with; once a
    path has an entry, all later frames keep that very entry and issue no
    load, gl_load, upload or store for the path, whichever record asks for
    it. *)
Theorem run_frames_decode_once frames later cache path :
  (stores_of path (run_frames (frames ++ later) cache).2 <= 1)%nat /\
  (stores_of path (run_frames (frames ++ later) cache).2 + cached cache path
   <= 1)%nat /\
  (forall entry,
     (run_frames frames cache).1 !! path = Some entry ->
     (run_frames (frames ++ later) cache).1 !! path = Some entry /\
     loads_of path (run_frames later (run_frames frames cache).1).2 = [] /\
     (run_frames (frames ++ later) cache).2 =
       (run_frames frames cache).2 ++
       (run_frames later (run_frames frames cache).1).2 /\
     (forall host img_data,
        filepath img_data = path ->
        (draw_image host img_data (run_frames frames cache).1).1 !! path =
          Some entry /\
        loads_of path
          (draw_image host img_data (run_frames frames cache).1).2 = [])).
Proof.
  pose proof (run_frames_stores (frames ++ later) cache path) as Hst.
  pose proof (cached_le_1 (run_frames (frames ++ later) cache).1 path) as Hle.
  split; [lia|]. split; [lia|].
  intros entry Hentry. rewrite run_frames_app. cbn [fst snd].
  destruct (run_frames_keeps later _ path entry Hentry) as [Hk Hl].
  repeat split; try done.
  - by apply draw_image_keeps.
  - by apply (draw_image_keeps host img_data _ path entry).
Qed.

(** Two frames over two records that share a path: one decode-and-upload,
    two quads per frame. *)
Example shared_path_frames :
  let sc := Sample.on_scene
    [Sample.added "ref" "a.png"; Sample.added "copy" "a.png"] 0 in
  let host := Sample.host_of Sample.photo in
  let run := run_frames [(host, sc); (host, sc)] ∅ in
  stores_of "a.png" run.2 = 1%nat /\
  length (loads_of "a.png" run.2) = 4%nat /\
  length (batches run.2) = 4%nat.
Proof. vm_compute. repeat split; reflexivity. Qed.

(** ** Removing a record *)

(** C1, as the code has it.  With a valid selected index, [execute] finishes
    with the selected record taken out of the list, the index set to
    [max(0, idx - 1)], and the cache entry of the removed record's path
    popped without looking at the other records: the path has no entry
    afterwards, every other path keeps what it had, and a visible record
    that still uses the path is loaded again by the next enabled frame. *)
Theorem remove_image_evicts st :
  0 <= ryref_index (scene st) < Z.of_nat (length (ryref_images (scene st))) ->
  exists img st',
    ryref_images (scene st) !! Z.to_nat (ryref_index (scene st)) = Some img /\
    remove_image_execute st = FINISHED st' /\
    ryref_images (scene st') =
      delete (Z.to_nat (ryref_index (scene st))) (ryref_images (scene st)) /\
    ryref_index (scene st') = Z.max 0 (ryref_index (scene st) - 1) /\
    ryref_references_on (scene st') = ryref_references_on (scene st) /\
    _image_cache st' = delete (filepath img) (_image_cache st) /\
    _image_cache st' !! filepath img = None /\
    (forall path, path <> filepath img ->
       _image_cache st' !! path = _image_cache st !! path) /\
    (forall host other,
       other ∈ ryref_images (scene st') ->
       filepath other = filepath img ->
       visible other = true ->
       ryref_references_on (scene st') = true ->
       ImagesLoad (filepath img) ∈
         (draw_overlay host (scene st') (_image_cache st')).2).
Proof.
  intros Hidx.
  destruct (lookup_lt_is_Some_2 (ryref_images (scene st))
              (Z.to_nat (ryref_index (scene st)))) as [img Himg]; [lia|].
  exists img. eexists. split; [exact Himg|]. split.
  { unfold remove_image_execute. guard_is true. rewrite Himg. reflexivity. }
  cbn [scene _image_cache set_index set_images ryref_images ryref_index
       ryref_references_on].
  rewrite coll_remove_in_range by done.
  split; [done|]. split; [done|]. split; [done|]. split; [done|].
  split; [apply lookup_delete_eq|]. split.
  - intros path Hne. by apply lookup_delete_ne.
  - intros host other Hin Hpath Hv Hon.
    rewrite draw_overlay_on by done. cbn [ryref_images]. rewrite <- Hpath.
    apply draw_images_reloads; [done|done|].
    rewrite Hpath. apply lookup_delete_eq.
Qed.

Lemma remove_image_evicts_witness :
  let ref := Sample.added "ref" "a.png" in
  let other := Sample.added "other" "b.png" in
  let st := {| scene := Sample.on_scene [ref; other] 0;
               _image_cache := Sample.cache_a Sample.photo |} in
  0 <= ryref_index (scene st) < Z.of_nat (length (ryref_images (scene st))) /\
  exists st',
    remove_image_execute st = FINISHED st' /\
    ryref_images (scene st') = [other] /\
    _image_cache st' !! "a.png" = None.
Proof.
  intros ref other st.
  assert (0 <= ryref_index (scene st) <
          Z.of_nat (length (ryref_images (scene st)))) as Hidx
    by (vm_compute; split; [discriminate | reflexivity]).
  split; [exact Hidx|].
  destruct (remove_image_evicts st Hidx)
    as (img & st' & Himg & Hrun & Hl & _ & _ & _ & Hc & _).
  injection Himg as <-.
  exists st'. split; [exact Hrun|]. split; [exact Hl | exact Hc].
Defined.

(** C1 as stated fails: two records share ["a.png"], the first is removed,
    and the entry the second still needs is gone, so the next frame decodes
    and uploads the file again. *)
Lemma remove_image_evicts_shared_path :
  let ref := Sample.added "ref" "a.png" in
  let copy := Sample.added "copy" "a.png" in
  let st := {| scene := Sample.on_scene [ref; copy] 0;
               _image_cache := Sample.cache_a Sample.photo |} in
  _image_cache st !! "a.png" = Some (Sample.photo, 1%positive) /\
  exists st',
    remove_image_execute st = FINISHED st' /\
    ryref_images (scene st') = [copy] /\
    filepath copy = "a.png" /\
    _image_cache st' !! "a.png" = None /\
    loads_of "a.png"
      (draw_overlay (Sample.host_of Sample.photo) (scene st')
         (_image_cache st')).2 =
    [ ImagesLoad "a.png"; GlLoad "a.png"; TextureFromImage "a.png";
      CacheStore "a.png" (Sample.photo, 1%positive) ].
Proof.
  intros ref copy st. split; [vm_compute; reflexivity|].
  eexists. split; [reflexivity|]. vm_compute. repeat split; reflexivity.
Qed.

(** ** Commands on an index out of range *)

(** The move command changes nothing at all when the guard of its direction
    fails: UP with [index <= 0], DOWN with [index >= len - 1]. *)
Lemma move_image_guard_fails direction st :
  (direction = UP /\ ryref_index (scene st) <= 0) \/
  (direction = DOWN /\
   Z.of_nat (length (ryref_images (scene st))) - 1 <= ryref_index (scene st)) ->
  move_image_execute direction st = FINISHED st.
Proof.
  unfold move_image_execute.
  intros [[-> H] | [-> H]]; by guard_is false.
Qed.

(** What the commands keep when the selected index is out of range: the
    remove command finishes with the state exactly as it was, and the move
    command, in either direction, finishes with the same record list (hence
    the same records), the same cache and the same global flag; neither
    raises.  On the empty list with index 0, the state in which the addon
    itself leaves an index out of range, the move command too changes
    nothing at all. *)
Theorem commands_out_of_range direction st :
  ~ (0 <= ryref_index (scene st) <
     Z.of_nat (length (ryref_images (scene st)))) ->
  remove_image_execute st = FINISHED st /\
  (exists st',
     move_image_execute direction st = FINISHED st' /\
     ryref_images (scene st') = ryref_images (scene st) /\
     _image_cache st' = _image_cache st /\
     ryref_references_on (scene st') = ryref_references_on (scene st)) /\
  (ryref_images (scene st) = [] -> ryref_index (scene st) = 0 ->
   move_image_execute direction st = FINISHED st).
Proof.
  intros Hout. split; [|split].
  - unfold remove_image_execute. by guard_is false.
  - unfold move_image_execute.
    destruct direction.
    + destruct (0 <? ryref_index (scene st)); [|by exists st].
      eexists. split; [reflexivity|].
      cbn [scene _image_cache set_index set_images ryref_images
           ryref_references_on].
      by rewrite coll_move_out_of_range.
    + destruct (ryref_index (scene st) <?
                Z.of_nat (length (ryref_images (scene st))) - 1);
        [|by exists st].
      eexists. split; [reflexivity|].
      cbn [scene _image_cache set_index set_images ryref_images
           ryref_references_on].
      by rewrite coll_move_out_of_range.
  - intros Hnil H0. apply move_image_guard_fails.
    rewrite Hnil, H0. cbn. destruct direction; [left | right]; split; (done || lia).
Qed.

Lemma commands_out_of_range_witness :
  let st := {| scene := Sample.on_scene [] 0;
               _image_cache := Sample.cache_a Sample.photo |} in
  ~ (0 <= ryref_index (scene st) <
     Z.of_nat (length (ryref_images (scene st)))) /\
  remove_image_execute st = FINISHED st /\
  move_image_execute UP st = FINISHED st /\
  move_image_execute DOWN st = FINISHED st.
Proof.
  intros st.
  assert (~ (0 <= ryref_index (scene st) <
             Z.of_nat (length (ryref_images (scene st))))) as Hout
    by (cbn; lia).
  split; [exact Hout|].
  destruct (commands_out_of_range UP st Hout) as (Hrm & _ & Hup).
  destruct (commands_out_of_range DOWN st Hout) as (_ & _ & Hdown).
  split; [exact Hrm|]. split; [exact (Hup eq_refl eq_refl)|].
  exact (Hdown eq_refl eq_refl).
Defined.

(** C8.  The move command is not a no-op on every index out of range: its
    guards look at one end of the list only ([index > 0] for UP,
    [index < len - 1] for DOWN), where the remove command tests
    [0 <= idx < len].  With two records, UP at index 5 finishes with index
    4 and DOWN at index -3 with index -2; list and cache are left alone and
    nothing is raised, and remove at the same states changes nothing. *)
Lemma move_out_of_range_steps_index :
  let images := [Sample.added "ref" "a.png"; Sample.added "other" "b.png"] in
  let cache := Sample.cache_a Sample.photo in
  move_image_execute UP (SampleOs.state images 5 cache) =
    FINISHED (SampleOs.state images 4 cache) /\
  move_image_execute DOWN (SampleOs.state images (-3) cache) =
    FINISHED (SampleOs.state images (-2) cache) /\
  remove_image_execute (SampleOs.state images 5 cache) =
    FINISHED (SampleOs.state images 5 cache) /\
  remove_image_execute (SampleOs.state images (-3) cache) =
    FINISHED (SampleOs.state images (-3) cache).
Proof. repeat split; reflexivity. Qed.

(** The same step on an empty cache. *)
Example move_up_beyond_the_end :
  let st := {| scene := Sample.on_scene
                 [Sample.added "ref" "a.png"; Sample.added "other" "b.png"] 5;
               _image_cache := ∅ |} in
  move_image_execute UP st =
  FINISHED {| scene := Sample.on_scene
                [Sample.added "ref" "a.png"; Sample.added "other" "b.png"] 4;
              _image_cache := ∅ |}.
Proof. reflexivity. Qed.

(** ** Reordering *)

(** C9. An in-range move (UP with [index > 0], DOWN with [index < len - 1])
    finishes with the selected record and its neighbour in that direction
    exchanged and every other position as it was, so the list is a
    permutation of the old one and no record is altered; the selected index
    follows the moved record; the cache and the global flag are untouched. *)
Theorem move_image_in_range direction st :
  0 <= ryref_index (scene st) < Z.of_nat (length (ryref_images (scene st))) ->
  (direction = UP -> 0 < ryref_index (scene st)) ->
  (direction = DOWN ->
   ryref_index (scene st) < Z.of_nat (length (ryref_images (scene st))) - 1) ->
  exists st' pre a b post,
    move_image_execute direction st = FINISHED st' /\
    ryref_images (scene st) = pre ++ a :: b :: post /\
    ryref_images (scene st') = pre ++ b :: a :: post /\
    ryref_images (scene st') ≡ₚ ryref_images (scene st) /\
    ryref_index (scene st') =
      (match direction with
       | UP => ryref_index (scene st) - 1
       | DOWN => ryref_index (scene st) + 1
       end) /\
    ryref_images (scene st') !! Z.to_nat (ryref_index (scene st')) =
      ryref_images (scene st) !! Z.to_nat (ryref_index (scene st)) /\
    _image_cache st' = _image_cache st /\
    ryref_references_on (scene st') = ryref_references_on (scene st).
Proof.
  intros Hidx Hup Hdown. unfold move_image_execute.
  set (idx := ryref_index (scene st)) in *.
  set (images := ryref_images (scene st)) in *.
  destruct direction.
  - specialize (Hup eq_refl). guard_is true.
    destruct (split_neighbours images (Z.to_nat (idx - 1)))
      as (pre & a & b & post & Hl & Hn); [lia|].
    eexists. exists pre, a, b, post. split; [reflexivity|].
    cbn [scene _image_cache set_index set_images ryref_images ryref_index
         ryref_references_on].
    rewrite Hl, (coll_move_up pre post a b idx) by lia.
    split; [done|]. split; [done|].
    split; [apply Permutation_app_head, perm_swap|].
    split; [done|]. split; [|done].
    replace (Z.to_nat (idx - 1)) with (length pre) by lia.
    replace (Z.to_nat idx) with (S (length pre)) by lia.
    rewrite (list_lookup_middle pre (a :: post) b) by done.
    change (pre ++ a :: b :: post) with (pre ++ [a] ++ b :: post).
    rewrite app_assoc.
    apply eq_sym, list_lookup_middle. rewrite length_app. cbn. lia.
  - specialize (Hdown eq_refl). guard_is true.
    destruct (split_neighbours images (Z.to_nat idx))
      as (pre & a & b & post & Hl & Hn); [lia|].
    eexists. exists pre, a, b, post. split; [reflexivity|].
    cbn [scene _image_cache set_index set_images ryref_images ryref_index
         ryref_references_on].
    rewrite Hl, (coll_move_down pre post a b idx) by lia.
    split; [done|]. split; [done|].
    split; [apply Permutation_app_head, perm_swap|].
    split; [done|]. split; [|done].
    replace (Z.to_nat (idx + 1)) with (S (length pre)) by lia.
    replace (Z.to_nat idx) with (length pre) by lia.
    rewrite (list_lookup_middle pre (b :: post) a) by done.
    change (pre ++ b :: a :: post) with (pre ++ [b] ++ a :: post).
    rewrite app_assoc.
    apply list_lookup_middle. rewrite length_app. cbn. lia.
Qed.

Lemma move_image_in_range_witness :
  let ref := Sample.added "ref" "a.png" in
  let other := Sample.added "other" "b.png" in
  let st := {| scene := Sample.on_scene [ref; other] 1;
               _image_cache := Sample.cache_a Sample.photo |} in
  0 <= ryref_index (scene st) < Z.of_nat (length (ryref_images (scene st))) /\
  0 < ryref_index (scene st) /\
  exists st',
    move_image_execute UP st = FINISHED st' /\
    ryref_images (scene st') ≡ₚ [ref; other] /\
    ryref_index (scene st') = 0 /\
    _image_cache st' = Sample.cache_a Sample.photo.
Proof.
  intros ref other st.
  assert (0 <= ryref_index (scene st) <
          Z.of_nat (length (ryref_images (scene st)))) as Hidx by (cbn; lia).
  assert (0 < ryref_index (scene st)) as Hpos by (cbn; lia).
  split; [exact Hidx|]. split; [exact Hpos|].
  destruct (move_image_in_range UP st Hidx (fun _ => Hpos)
              ltac:(discriminate))
    as (st' & pre & a & b & post & Hrun & _ & _ & Hperm & Hi & _ & Hc & _).
  exists st'. split; [exact Hrun|].
  split; [exact Hperm|]. split; [exact Hi | exact Hc].
Defined.

(** * Further properties of the code *)

(** ** What a frame hands to the GPU *)

Lemma gpu_run_app s (a b : list Event) :
  gpu_run s (a ++ b) =
  ((gpu_run (gpu_run s a).1 b).1, (gpu_run s a).2 ++ (gpu_run (gpu_run s a).1 b).2).
Proof.
  revert s. induction a as [|ev a IH]; intros s.
  - cbn. by destruct (gpu_run s b).
  - cbn [app gpu_run]. destruct (gpu_step s ev) as [s1 d1].
    rewrite IH. destruct (gpu_run s1 a) as [s2 d2]. cbn [fst snd].
    destruct (gpu_run s2 b) as [s3 d3]. cbn [fst snd]. by rewrite app_assoc.
Qed.

Lemma gpu_run_try_load s host path :
  gpu_run s (try_load host path).1 = (s, []).
Proof.
  unfold try_load.
  destruct (images_load host path) as [i0|]; [|done].
  destruct (gl_load host i0) as [i|]; [|done].
  destruct (texture_from_image host i); done.
Qed.

Lemma drawable_guard image :
  negb (has_data image) || ((image_size image).1 =? 0)
  || ((image_size image).2 =? 0) = negb (drawable image).
Proof.
  unfold drawable.
  by destruct (has_data image), ((image_size image).1 =? 0),
    ((image_size image).2 =? 0).
Qed.

(** The six calls of one quad, run on the GPU: one draw call, in alpha
    blending with the record's texture and tint, and blending is off again
    afterwards. *)
Lemma gpu_run_draw_quad s img_data image gpu_tex :
  gpu_run s (draw_quad img_data image gpu_tex) =
  if drawable image then
    ({| blend := NONE; shader_bound := true; sampler := Some gpu_tex;
        color := Some (1%Q, 1%Q, 1%Q, opacity img_data) |},
     [ {| dc_batch := quad_batch img_data image;
          dc_state :=
            {| blend := ALPHA; shader_bound := true;
               sampler := Some gpu_tex;
               color := Some (1%Q, 1%Q, 1%Q, opacity img_data) |} |} ])
  else (s, []).
Proof.
  unfold draw_quad. rewrite drawable_guard.
  destruct (drawable image); [|done]. cbn [negb].
  unfold quad_batch. destruct (position img_data), (scale img_data).
  reflexivity.
Qed.

(** ** Caches reached within one frame *)

Lemma extends_refl host cache : extends host cache cache.
Proof. intros path. by left. Qed.

Lemma extends_resolve host cache0 cache path :
  extends host cache0 cache ->
  resolve host cache path = resolve host cache0 path.
Proof.
  intros Hext. unfold resolve.
  destruct (Hext path) as [-> | [-> ->]]; [done|].
  by destruct (try_load host path).2.
Qed.

Lemma extends_draw_image host cache0 cache img_data :
  extends host cache0 cache ->
  extends host cache0 (draw_image host img_data cache).1.
Proof.
  intros Hext.
  destruct (draw_image_cases host img_data cache)
    as [[_ ->] | [(i & t & _ & _ & ->) | [(_ & _ & _ & ->) |
        (i & t & _ & Hc & Hl & ->)]]]; cbn [fst]; try done.
  intros path. destruct (decide (path = filepath img_data)) as [->|Hne].
  - right. rewrite lookup_insert_eq, Hl. split; [|done].
    destruct (Hext (filepath img_data)) as [H | [H _]]; congruence.
  - rewrite lookup_insert_ne by done. apply Hext.
Qed.

Lemma extends_draw_images host cache0 cache images :
  extends host cache0 cache ->
  extends host cache0 (draw_images host images cache).1.
Proof.
  revert cache. induction images as [|r l IH]; intros cache Hext; [done|].
  rewrite draw_images_cons. cbn [fst]. by apply IH, extends_draw_image.
Qed.

(** One record, run on the GPU. *)
Lemma gpu_run_draw_image s host cache0 cache img_data :
  extends host cache0 cache ->
  (gpu_run s (draw_image host img_data cache).2).2 =
    rendered host cache0 img_data /\
  (gpu_run s (draw_image host img_data cache).2).1 =
    match rendered host cache0 img_data with
    | [] => s
    | dc :: _ =>
      {| blend := NONE; shader_bound := true;
         sampler := sampler (dc_state dc); color := color (dc_state dc) |}
    end.
Proof.
  intros Hext. unfold rendered.
  rewrite <- (extends_resolve host cache0 cache _ Hext). unfold resolve.
  destruct (draw_image_cases host img_data cache)
    as [[Hv ->] | [(i & t & Hv & Hc & ->) | [(Hv & Hc & Hl & ->) |
        (i & t & Hv & Hc & Hl & ->)]]]; cbn [fst snd]; rewrite Hv.
  - done.
  - rewrite Hc, gpu_run_draw_quad. by destruct (drawable i).
  - by rewrite Hc, Hl, gpu_run_try_load.
  - rewrite Hc, Hl, gpu_run_app, gpu_run_try_load. cbn [fst snd].
    rewrite gpu_run_draw_quad. by destruct (drawable i).
Qed.

Lemma rendered_state host cache img_data dc :
  dc ∈ rendered host cache img_data ->
  exists image gpu_tex,
    visible img_data = true /\
    resolve host cache (filepath img_data) = Some (image, gpu_tex) /\
    drawable image = true /\
    dc = {| dc_batch := quad_batch img_data image;
            dc_state :=
              {| blend := ALPHA; shader_bound := true;
                 sampler := Some gpu_tex;
                 color := Some (1%Q, 1%Q, 1%Q, opacity img_data) |} |}.
Proof.
  unfold rendered. destruct (visible img_data); [|by intros ?%elem_of_nil].
  destruct (resolve host cache (filepath img_data)) as [[i t]|];
    [|by intros ?%elem_of_nil].
  destruct (drawable i) eqn:Hd; [|by intros ?%elem_of_nil].
  intros ->%list_elem_of_singleton. by exists i, t.
Qed.

Lemma gpu_run_draw_images s host cache0 cache images :
  extends host cache0 cache ->
  (gpu_run s (draw_images host images cache).2).2 =
    flat_map (rendered host cache0) images /\
  blend (gpu_run s (draw_images host images cache).2).1 =
    match flat_map (rendered host cache0) images with
    | [] => blend s
    | _ => NONE
    end.
Proof.
  revert s cache. induction images as [|r l IH]; intros s cache Hext; [done|].
  rewrite draw_images_cons. cbn [fst snd flat_map]. rewrite gpu_run_app.
  cbn [fst snd].
  destruct (gpu_run_draw_image s host cache0 cache r Hext) as [Hd Hs].
  destruct (IH (gpu_run s (draw_image host r cache).2).1 _
              (extends_draw_image host cache0 cache r Hext)) as [Hd' Hs'].
  rewrite Hd, Hd', Hs'. split; [done|]. rewrite Hs.
  destruct (rendered host cache0 r) as [|dc ?]; cbn [app]; [done|].
  by destruct (flat_map (rendered host cache0) l).
Qed.

(** X1. The draw calls of a frame are those of its records one after the
    other in list order (later records are drawn later, hence on top), and
    what a record contributes depends only on the record, the host and the
    cache the frame started from: nothing when hidden, unresolved or not
    drawable, else one call with its quad, alpha blending, the bound shader,
    the texture its path resolves to, and white with its opacity as alpha.
    A disabled frame hands nothing to the GPU. *)
Theorem frame_draw_calls s host sc cache :
  (gpu_run s (draw_overlay host sc cache).2).2 =
  if ryref_references_on sc
  then flat_map (rendered host cache) (ryref_images sc)
  else [].
Proof.
  unfold draw_overlay. destruct (ryref_references_on sc); [|done]. cbn [negb].
  apply gpu_run_draw_images, extends_refl.
Qed.

(** X2. Whatever state the GPU is in when a frame starts, every draw call of
    the frame is made with alpha blending on, [_shader] bound, the sampler
    set to a texture and the colour set to (1, 1, 1, opacity) of a visible
    record of the list; and a frame that draws anything leaves blending at
    NONE, one that draws nothing leaves the blend mode as it found it. *)
Theorem frame_blend_state s host sc cache :
  Forall (fun dc =>
            blend (dc_state dc) = ALPHA /\
            shader_bound (dc_state dc) = true /\
            is_Some (sampler (dc_state dc)) /\
            exists r, r ∈ ryref_images sc /\ visible r = true /\
              color (dc_state dc) = Some (1%Q, 1%Q, 1%Q, opacity r))
    (gpu_run s (draw_overlay host sc cache).2).2 /\
  blend (gpu_run s (draw_overlay host sc cache).2).1 =
    match (gpu_run s (draw_overlay host sc cache).2).2 with
    | [] => blend s
    | _ => NONE
    end.
Proof.
  unfold draw_overlay. destruct (ryref_references_on sc); cbn [negb];
    [|by split; [constructor|]].
  destruct (gpu_run_draw_images s host cache cache (ryref_images sc)
              (extends_refl host cache)) as [Hd Hs].
  rewrite Hs, Hd. split; [|done].
  apply Forall_forall. intros dc Hin.
  apply list_elem_of_In, in_flat_map in Hin as (r & Hr & Hdc).
  apply list_elem_of_In in Hr, Hdc.
  apply rendered_state in Hdc as (i & t & Hv & _ & _ & ->). cbn.
  repeat split; try done. by exists r.
Qed.

(** ** The cache a frame leaves *)

Lemma asked_true images path :
  asked images path = true <->
  exists r, r ∈ images /\ visible r = true /\ filepath r = path.
Proof.
  unfold asked. rewrite existsb_exists. split.
  - intros (r & Hin & H). apply andb_true_iff in H as [Hv He].
    apply String.eqb_eq in He. exists r. by rewrite list_elem_of_In.
  - intros (r & Hin & Hv & He). exists r. rewrite <- list_elem_of_In.
    split; [done|]. rewrite Hv. by apply String.eqb_eq.
Qed.

Lemma draw_images_cache_after host images cache path :
  (draw_images host images cache).1 !! path =
  cache_after host images cache path.
Proof.
  unfold cache_after. revert cache.
  induction images as [|r l IH]; intros cache.
  - cbn. by destruct (cache !! path).
  - rewrite draw_images_cons. cbn [fst]. rewrite IH. cbn [asked existsb].
    fold (asked l path).
    destruct (draw_image_cases host r cache)
      as [[Hv ->] | [(i & t & Hv & Hc & ->) | [(Hv & Hc & Hl & ->) |
          (i & t & Hv & Hc & Hl & ->)]]]; cbn [fst]; rewrite Hv;
      cbn [andb].
    + done.
    + destruct (String.eqb_spec (filepath r) path) as [<-|Hne];
        cbn [orb]; [by rewrite Hc|done].
    + destruct (String.eqb_spec (filepath r) path) as [<-|Hne];
        cbn [orb]; [|done].
      rewrite Hc, Hl. by destruct (asked l (filepath r)).
    + destruct (String.eqb_spec (filepath r) path) as [<-|Hne]; cbn [orb].
      * by rewrite lookup_insert_eq, Hc, Hl.
      * by rewrite lookup_insert_ne.
Qed.

(** X3. The cache after a frame, path by path: an entry that was there is
    kept as it is; a path without entry gets what the host's loader gives
    for it if the frame is enabled and some visible record has the path, and
    stays without entry otherwise (also when that load raises).  So a frame
    never drops or replaces an entry, and never caches a path that no
    visible record uses. *)
Theorem frame_cache host sc cache path :
  (draw_overlay host sc cache).1 !! path =
    (if ryref_references_on sc
     then cache_after host (ryref_images sc) cache path
     else cache !! path) /\
  cache ⊆ (draw_overlay host sc cache).1 /\
  (cache !! path = None ->
   is_Some ((draw_overlay host sc cache).1 !! path) ->
   ryref_references_on sc = true /\
   exists r, r ∈ ryref_images sc /\ visible r = true /\ filepath r = path).
Proof.
  assert (forall q, (draw_overlay host sc cache).1 !! q =
    (if ryref_references_on sc
     then cache_after host (ryref_images sc) cache q
     else cache !! q)) as Hchar.
  { intros q. unfold draw_overlay.
    destruct (ryref_references_on sc); cbn [negb]; [|done].
    apply draw_images_cache_after. }
  split; [apply Hchar|]. split.
  - apply map_subseteq_spec. intros q e Hq. rewrite Hchar.
    destruct (ryref_references_on sc); [|done].
    unfold cache_after. by rewrite Hq.
  - rewrite Hchar. intros Hnone Hsome.
    destruct (ryref_references_on sc);
      [|rewrite Hnone in Hsome; by destruct Hsome].
    split; [done|]. unfold cache_after in Hsome. rewrite Hnone in Hsome.
    destruct (asked (ryref_images sc) path) eqn:Ha;
      [by apply asked_true|by destruct Hsome].
Qed.

Lemma draw_overlay_cache_after host sc cache path :
  (draw_overlay host sc cache).1 !! path =
  if ryref_references_on sc
  then cache_after host (ryref_images sc) cache path
  else cache !! path.
Proof.
  unfold draw_overlay.
  destruct (ryref_references_on sc); cbn [negb]; [|done].
  apply draw_images_cache_after.
Qed.

Lemma extends_draw_overlay host sc cache :
  extends host cache (draw_overlay host sc cache).1.
Proof.
  unfold draw_overlay.
  destruct (negb (ryref_references_on sc)); [apply extends_refl|].
  apply extends_draw_images, extends_refl.
Qed.

Lemma rendered_extends host cache0 cache img_data :
  extends host cache0 cache ->
  rendered host cache img_data = rendered host cache0 img_data.
Proof.
  intros Hext. unfold rendered. by rewrite (extends_resolve host cache0 cache).
Qed.

Lemma gpu_run_draw_overlay s host sc cache :
  (gpu_run s (draw_overlay host sc cache).2).2 =
  if ryref_references_on sc
  then flat_map (rendered host cache) (ryref_images sc)
  else [].
Proof.
  unfold draw_overlay. destruct (ryref_references_on sc); [|done]. cbn [negb].
  apply gpu_run_draw_images, extends_refl.
Qed.

(** X4. Redrawing is idempotent: a second frame with the same host and scene,
    started from the cache the first one left, leaves that cache as it is,
    completes no decode-and-upload, and makes the same draw calls as the
    first (from whatever GPU state each starts).  So switching the overlays
    off and on again brings back the same picture. *)
Theorem redraw_idempotent s s' host sc cache :
  (draw_overlay host sc (draw_overlay host sc cache).1).1 =
    (draw_overlay host sc cache).1 /\
  (forall path,
     stores_of path (draw_overlay host sc (draw_overlay host sc cache).1).2
     = 0%nat) /\
  (gpu_run s' (draw_overlay host sc (draw_overlay host sc cache).1).2).2 =
    (gpu_run s (draw_overlay host sc cache).2).2.
Proof.
  assert ((draw_overlay host sc (draw_overlay host sc cache).1).1 =
          (draw_overlay host sc cache).1) as Hcache.
  { apply map_eq. intros path. rewrite draw_overlay_cache_after.
    destruct (ryref_references_on sc) eqn:Hon; [|done].
    unfold cache_after at 1. rewrite draw_overlay_cache_after, Hon.
    unfold cache_after.
    destruct (cache !! path) as [e|]; [done|].
    destruct (asked (ryref_images sc) path); [|done].
    by destruct (try_load host path).2. }
  split; [done|]. split.
  - intros path.
    pose proof (draw_overlay_stores host sc (draw_overlay host sc cache).1 path)
      as Hst.
    rewrite Hcache in Hst. lia.
  - rewrite !gpu_run_draw_overlay.
    destruct (ryref_references_on sc); [|done].
    induction (ryref_images sc) as [|r l IH]; [done|].
    cbn [flat_map]. rewrite IH.
    by rewrite (rendered_extends host cache _ r (extends_draw_overlay host sc cache)).
Qed.

(** X5. A frame makes at most one draw call per visible record of the list,
    and none at all when no record is visible. *)
Theorem frame_draw_count s host sc cache :
  (length (gpu_run s (draw_overlay host sc cache).2).2 <=
   length (List.filter visible (ryref_images sc)))%nat.
Proof.
  rewrite gpu_run_draw_overlay.
  destruct (ryref_references_on sc); [|cbn; lia].
  induction (ryref_images sc) as [|r l IH]; [done|].
  cbn [flat_map List.filter]. rewrite length_app.
  unfold rendered at 1.
  destruct (visible r); [|cbn; lia].
  destruct (resolve host cache (filepath r)) as [[i t]|]; [|cbn; lia].
  destruct (drawable i); cbn; lia.
Qed.

(** ** Load attempts *)

Lemma attempts_app path (a b : list Event) :
  attempts path (a ++ b) = (attempts path a + attempts path b)%nat.
Proof. unfold attempts. by rewrite List.filter_app, length_app. Qed.

Lemma attempts_try_load host p path :
  attempts path (try_load host p).1 = if String.eqb p path then 1%nat else 0%nat.
Proof.
  unfold try_load, attempts.
  destruct (images_load host p) as [i0|]; cbn;
    [|by destruct (String.eqb p path)].
  destruct (gl_load host i0) as [i|]; cbn;
    [|by destruct (String.eqb p path)].
  destruct (texture_from_image host i); cbn; by destruct (String.eqb p path).
Qed.

Lemma attempts_draw_quad path img_data image gpu_tex :
  attempts path (draw_quad img_data image gpu_tex) = 0%nat.
Proof.
  unfold draw_quad. destruct (_ || _); [done|].
  by destruct (position img_data), (scale img_data).
Qed.

Lemma draw_images_attempts host images cache path :
  attempts path (draw_images host images cache).2 =
  match cache !! path with
  | Some _ => 0%nat
  | None =>
    match (try_load host path).2 with
    | Some _ => if asked images path then 1%nat else 0%nat
    | None => users images path
    end
  end.
Proof.
  revert cache. induction images as [|r l IH]; intros cache.
  - cbn. destruct (cache !! path); [done|].
    by destruct (try_load host path).2.
  - rewrite draw_images_cons. cbn [fst snd]. rewrite attempts_app, IH.
    unfold asked, users. cbn [existsb List.filter].
    fold (asked l path). fold (users l path).
    destruct (draw_image_cases host r cache)
      as [[Hv ->] | [(i & t & Hv & Hc & ->) | [(Hv & Hc & Hl & ->) |
          (i & t & Hv & Hc & Hl & ->)]]]; cbn [fst snd]; rewrite Hv;
      cbn [andb orb].
    + done.
    + rewrite attempts_draw_quad.
      destruct (String.eqb_spec (filepath r) path) as [<-|Hne];
        [by rewrite Hc|done].
    + rewrite attempts_try_load.
      destruct (String.eqb_spec (filepath r) path) as [<-|Hne]; [|done].
      by rewrite Hc, Hl.
    + rewrite attempts_app, attempts_try_load, attempts_draw_quad.
      destruct (String.eqb_spec (filepath r) path) as [<-|Hne].
      * by rewrite lookup_insert_eq, Hc, Hl.
      * by rewrite lookup_insert_ne.
Qed.

(** X6. How often an enabled frame calls [bpy.data.images.load] on a path:
    never if the path has a cache entry; once if it has none, some visible
    record uses it and the load succeeds; and, when the load raises, once
    for every visible record that uses it, since each of them finds the
    cache still without entry.  A disabled frame loads nothing. *)
Theorem frame_load_attempts host sc cache path :
  attempts path (draw_overlay host sc cache).2 =
  if ryref_references_on sc then
    match cache !! path with
    | Some _ => 0%nat
    | None =>
      match (try_load host path).2 with
      | Some _ => if asked (ryref_images sc) path then 1%nat else 0%nat
      | None => users (ryref_images sc) path
      end
    end
  else 0%nat.
Proof.
  unfold draw_overlay. destruct (ryref_references_on sc); cbn [negb]; [|done].
  apply draw_images_attempts.
Qed.

(** A missing file used by two visible records is tried twice per frame. *)
Example missing_file_tried_per_record :
  attempts "missing.png"
    (draw_overlay Sample.host_missing
       (Sample.on_scene [Sample.added "lost" "missing.png";
                         Sample.added "ref" "a.png";
                         Sample.added "lost2" "missing.png"] 0) ∅).2 = 2%nat.
Proof. vm_compute. reflexivity. Qed.

(** ** Adding a record *)

Lemma add_image_result os_path path st :
  add_image_execute os_path path st =
  FINISHED
    {| scene :=
         {| ryref_references_on := ryref_references_on (scene st);
            ryref_images :=
              ryref_images (scene st) ++
              [ {| name := (splitext os_path (basename os_path path)).1;
                   filepath := path; visible := true;
                   position := (f32 100, f32 100);
                   scale := (f32 0.2, f32 0.2); opacity := f32 1;
                   flip_x := false; flip_y := false |} ];
            ryref_index := Z.of_nat (length (ryref_images (scene st))) |};
       _image_cache := _image_cache st |}.
Proof.
  unfold add_image_execute, set_index, set_images.
  cbn [ryref_images ryref_references_on ryref_index visible flip_x flip_y
       default_image].
  rewrite length_app. cbn [length]. do 3 f_equal. lia.
Qed.

(** X8. The record just added is drawn last, on top of the others: the next
    enabled frame makes the draw calls it would have made without the new
    record, followed by what the new record contributes. *)
Theorem add_image_draws_on_top os_path path st s host :
  ryref_references_on (scene st) = true ->
  exists st' img,
    add_image_execute os_path path st = FINISHED st' /\
    ryref_images (scene st') = ryref_images (scene st) ++ [img] /\
    (gpu_run s (draw_overlay host (scene st') (_image_cache st')).2).2 =
      (gpu_run s (draw_overlay host (scene st) (_image_cache st)).2).2 ++
      rendered host (_image_cache st) img.
Proof.
  intros Hon. eexists. eexists. split; [apply add_image_result|].
  split; [reflexivity|].
  rewrite !gpu_run_draw_overlay.
  cbn [scene _image_cache ryref_images ryref_references_on]. rewrite Hon.
  rewrite flat_map_app. cbn [flat_map]. by rewrite app_nil_r.
Qed.

Lemma add_image_draws_on_top_witness :
  let st := SampleOs.state [Sample.added "ref" "a.png"] 0 ∅ in
  let s := mkGpuState NONE false None None in
  let host := Sample.host_of Sample.photo in
  ryref_references_on (scene st) = true /\
  exists st' img,
    add_image_execute SampleOs.os_path "b.png" st = FINISHED st' /\
    ryref_images (scene st') = ryref_images (scene st) ++ [img] /\
    (gpu_run s (draw_overlay host (scene st') (_image_cache st')).2).2 =
      (gpu_run s (draw_overlay host (scene st) (_image_cache st)).2).2 ++
      rendered host (_image_cache st) img.
Proof.
  intros st s host. split; [reflexivity|].
  exact (add_image_draws_on_top SampleOs.os_path "b.png" st s host eq_refl).
Defined.

(** ** The operators, case by case *)

Lemma coll_move_Permutation {A} (l : list A) (key pos : Z) :
  coll_move l key pos ≡ₚ l.
Proof.
  unfold coll_move. destruct (_ && _); [|done].
  destruct (l !! Z.to_nat key) as [x|] eqn:Hx; [|done].
  rewrite <- Permutation_middle, take_drop.
  symmetry. by apply delete_Permutation.
Qed.

Lemma remove_image_cases st :
  (~ (0 <= ryref_index (scene st) <
      Z.of_nat (length (ryref_images (scene st)))) /\
   remove_image_execute st = FINISHED st) \/
  (exists img,
     0 <= ryref_index (scene st) <
       Z.of_nat (length (ryref_images (scene st))) /\
     ryref_images (scene st) !! Z.to_nat (ryref_index (scene st)) = Some img /\
     remove_image_execute st =
     FINISHED
       {| scene :=
            {| ryref_references_on := ryref_references_on (scene st);
               ryref_images :=
                 delete (Z.to_nat (ryref_index (scene st)))
                   (ryref_images (scene st));
               ryref_index := Z.max 0 (ryref_index (scene st) - 1) |};
          _image_cache := delete (filepath img) (_image_cache st) |}).
Proof.
  destruct (decide (0 <= ryref_index (scene st) <
                    Z.of_nat (length (ryref_images (scene st)))))
    as [Hin|Hout].
  - right.
    destruct (lookup_lt_is_Some_2 (ryref_images (scene st))
                (Z.to_nat (ryref_index (scene st)))) as [img Himg]; [lia|].
    exists img. split; [done|]. split; [done|].
    unfold remove_image_execute. guard_is true. rewrite Himg.
    unfold set_index, set_images.
    cbn [ryref_images ryref_references_on ryref_index].
    by rewrite coll_remove_in_range.
  - left. split; [done|]. unfold remove_image_execute. by guard_is false.
Qed.

Lemma move_image_cases direction st :
  move_image_execute direction st = FINISHED st \/
  exists images' index',
    move_image_execute direction st =
      FINISHED
        {| scene :=
             {| ryref_references_on := ryref_references_on (scene st);
                ryref_images := images'; ryref_index := index' |};
           _image_cache := _image_cache st |} /\
    images' ≡ₚ ryref_images (scene st) /\
    ((direction = UP /\ 0 < ryref_index (scene st) /\
      index' = ryref_index (scene st) - 1) \/
     (direction = DOWN /\
      ryref_index (scene st) <
        Z.of_nat (length (ryref_images (scene st))) - 1 /\
      index' = ryref_index (scene st) + 1)).
Proof.
  unfold move_image_execute. destruct direction.
  - destruct (Z.ltb_spec 0 (ryref_index (scene st))); [|by left].
    right. eexists. eexists. split; [reflexivity|].
    split; [apply coll_move_Permutation|]. left. by cbn.
  - destruct (Z.ltb_spec (ryref_index (scene st))
                (Z.of_nat (length (ryref_images (scene st))) - 1));
      [|by left].
    right. eexists. eexists. split; [reflexivity|].
    split; [apply coll_move_Permutation|]. right. by cbn.
Qed.

(** ** Sessions *)

Lemma run_action_finishes os_path a st :
  exists st', run_action os_path a st = FINISHED st'.
Proof.
  destruct a as [path| |direction|host]; cbn [run_action].
  - rewrite add_image_result. by eexists.
  - destruct (remove_image_cases st) as [[_ ->] | (img & _ & _ & ->)];
      by eexists.
  - destruct (move_image_cases direction st)
      as [-> | (images' & index' & -> & _)]; by eexists.
  - by eexists.
Qed.

Lemma run_action_index_ok os_path a st st' :
  run_action os_path a st = FINISHED st' -> index_ok st -> index_ok st'.
Proof.
  unfold index_ok.
  destruct a as [path| |direction|host]; cbn [run_action].
  - rewrite add_image_result. intros [= <-] _. right.
    cbn [scene ryref_images ryref_index]. rewrite length_app. cbn [length]. lia.
  - destruct (remove_image_cases st) as [[_ ->] | (img & Hin & Himg & ->)];
      intros [= <-]; [done|]. intros _.
    cbn [scene ryref_images ryref_index].
    pose proof (length_delete (ryref_images (scene st))
                  (Z.to_nat (ryref_index (scene st)))
                  (ex_intro _ img Himg)) as Hlen.
    destruct (delete (Z.to_nat (ryref_index (scene st)))
                (ryref_images (scene st))) as [|r l] eqn:Hdel.
    + left. split; [done|]. cbn [length] in Hlen. lia.
    + right. cbn [length] in *. lia.
  - destruct (move_image_cases direction st)
      as [-> | (images' & index' & -> & Hperm & Hcase)];
      intros [= <-]; [done|].
    cbn [scene ryref_images ryref_index].
    apply Permutation_length in Hperm. rewrite Hperm.
    intros [[Hnil H0] | Hin]; [rewrite Hnil, H0 in Hcase; cbn in Hcase|];
      right; lia.
  - by intros [= <-].
Qed.

Lemma run_action_covered os_path a st st' :
  run_action os_path a st = FINISHED st' -> cache_covered st ->
  cache_covered st'.
Proof.
  unfold cache_covered.
  destruct a as [path| |direction|host]; cbn [run_action].
  - rewrite add_image_result. intros [= <-] Hcov q Hq.
    cbn [scene _image_cache ryref_images] in *.
    destruct (Hcov q Hq) as (r & Hr & Hp). exists r. split; [|done].
    apply elem_of_app. by left.
  - destruct (remove_image_cases st) as [[_ ->] | (img & Hin & Himg & ->)];
      intros [= <-] Hcov q Hq; [by apply Hcov|].
    cbn [scene _image_cache ryref_images] in *.
    destruct (decide (q = filepath img)) as [->|Hne];
      [rewrite lookup_delete_eq in Hq; by destruct Hq|].
    rewrite lookup_delete_ne in Hq by done.
    destruct (Hcov q Hq) as (r & Hr & Hp). exists r. split; [|done].
    rewrite (delete_Permutation _ _ _ Himg) in Hr.
    apply elem_of_cons in Hr as [-> | Hr]; [done|done].
  - destruct (move_image_cases direction st)
      as [-> | (images' & index' & -> & Hperm & _)];
      intros [= <-] Hcov q Hq; [by apply Hcov|].
    cbn [scene _image_cache ryref_images] in *.
    destruct (Hcov q Hq) as (r & Hr & Hp). exists r. by rewrite Hperm.
  - intros [= <-] Hcov q Hq. cbn [scene _image_cache] in *.
    destruct (_image_cache st !! q) as [e|] eqn:Hc; [by apply Hcov|].
    rewrite draw_overlay_cache_after, Hc in Hq.
    destruct (ryref_references_on (scene st)); [|by destruct Hq].
    unfold cache_after in Hq. rewrite Hc in Hq.
    destruct (asked (ryref_images (scene st)) q) eqn:Ha;
      [|by destruct Hq].
    apply asked_true in Ha as (r & Hr & _ & Hp). by exists r.
Qed.

(** X9. If the selected index points at a record (or the list is empty and
    the index is 0), it still does after any sequence of add, remove, move
    and redraw: through the addon's own commands the index never leaves the
    list. *)
Theorem session_index_ok os_path acts st st' :
  index_ok st ->
  run_actions os_path acts st = FINISHED st' ->
  index_ok st'.
Proof.
  revert st. induction acts as [|a acts IH]; intros st Hok Hrun.
  - by injection Hrun as <-.
  - cbn [run_actions] in Hrun.
    destruct (run_action os_path a st) as [st1|exn] eqn:H1; [|done].
    eapply IH; [|done]. eapply run_action_index_ok; eauto.
Qed.

Lemma session_index_ok_witness :
  let acts := [ DoAdd "refs/a.png"; DoAdd "refs/b.png";
                DoDraw (Sample.host_of Sample.photo);
                DoMove UP; DoRemove; DoRemove; DoMove DOWN ] in
  let st := SampleOs.state [] 0 ∅ in
  index_ok st /\
  exists st',
    run_actions SampleOs.os_path acts st = FINISHED st' /\ index_ok st'.
Proof.
  intros acts st.
  assert (index_ok st) as Hok by (left; split; reflexivity).
  split; [exact Hok|].
  eexists. split; [vm_compute; reflexivity|].
  apply (session_index_ok SampleOs.os_path acts st _ Hok).
  vm_compute. reflexivity.
Defined.

(** X10. If every cached path is the path of some record of the list, the
    same holds after any sequence of add, remove, move and redraw: the
    commands and the draw callback never leave an entry behind for a path
    that no record has. *)
Theorem session_cache_covered os_path acts st :
  cache_covered st ->
  exists st',
    run_actions os_path acts st = FINISHED st' /\ cache_covered st'.
Proof.
  revert st. induction acts as [|a acts IH]; intros st Hcov; [by exists st|].
  cbn [run_actions].
  destruct (run_action_finishes os_path a st) as [st1 H1]. rewrite H1.
  apply IH. eapply run_action_covered; eauto.
Qed.

Lemma cache_covered_empty sc : cache_covered {| scene := sc; _image_cache := ∅ |}.
Proof. intros path [e He]. cbn in He. by rewrite lookup_empty in He. Defined.

Lemma session_cache_covered_witness :
  let acts := [ DoAdd "a.png"; DoAdd "b.png";
                DoDraw (Sample.host_of Sample.photo);
                DoMove UP; DoRemove; DoDraw (Sample.host_of Sample.photo) ] in
  let st := SampleOs.state [] 0 ∅ in
  cache_covered st /\
  exists st',
    run_actions SampleOs.os_path acts st = FINISHED st' /\ cache_covered st'.
Proof.
  intros acts st. split; [apply cache_covered_empty|].
  apply (session_cache_covered SampleOs.os_path acts st).
  apply cache_covered_empty.
Defined.

(** ** Round trips *)

Lemma move_up_result on pre a b post index cache :
  index = Z.of_nat (length pre) + 1 ->
  move_image_execute UP
    {| scene := {| ryref_references_on := on;
                   ryref_images := pre ++ a :: b :: post;
                   ryref_index := index |};
       _image_cache := cache |} =
  FINISHED
    {| scene := {| ryref_references_on := on;
                   ryref_images := pre ++ b :: a :: post;
                   ryref_index := index - 1 |};
       _image_cache := cache |}.
Proof.
  intros Hi. unfold move_image_execute, set_index, set_images.
  cbn [scene _image_cache ryref_images ryref_index ryref_references_on].
  guard_is true. by rewrite coll_move_up.
Qed.

Lemma move_down_result on pre a b post index cache :
  index = Z.of_nat (length pre) ->
  move_image_execute DOWN
    {| scene := {| ryref_references_on := on;
                   ryref_images := pre ++ a :: b :: post;
                   ryref_index := index |};
       _image_cache := cache |} =
  FINISHED
    {| scene := {| ryref_references_on := on;
                   ryref_images := pre ++ b :: a :: post;
                   ryref_index := index + 1 |};
       _image_cache := cache |}.
Proof.
  intros Hi. unfold move_image_execute, set_index, set_images.
  cbn [scene _image_cache ryref_images ryref_index ryref_references_on].
  rewrite length_app. cbn [length]. guard_is true. by rewrite coll_move_down.
Qed.

(** X11. Moving the selected record up and then down again, or down and then
    up again, gives back the state as it was: list, selected index, cache
    and flag. *)
Theorem move_round_trip st :
  0 <= ryref_index (scene st) < Z.of_nat (length (ryref_images (scene st))) ->
  (0 < ryref_index (scene st) ->
   exists st1, move_image_execute UP st = FINISHED st1 /\
               move_image_execute DOWN st1 = FINISHED st) /\
  (ryref_index (scene st) < Z.of_nat (length (ryref_images (scene st))) - 1 ->
   exists st1, move_image_execute DOWN st = FINISHED st1 /\
               move_image_execute UP st1 = FINISHED st).
Proof.
  destruct st as [[on images index] cache].
  cbn [scene ryref_images ryref_index]. intros Hin. split.
  - intros Hpos.
    destruct (split_neighbours images (Z.to_nat (index - 1)))
      as (pre & a & b & post & -> & Hn); [lia|].
    eexists. split; [apply move_up_result; lia|].
    rewrite move_down_result by lia. do 3 f_equal. lia.
  - intros Hlast.
    destruct (split_neighbours images (Z.to_nat index))
      as (pre & a & b & post & -> & Hn); [lia|].
    eexists. split; [apply move_down_result; lia|].
    rewrite move_up_result by lia. do 3 f_equal. lia.
Qed.

Lemma move_round_trip_witness :
  let st := SampleOs.state
    [Sample.added "a" "a.png"; Sample.added "b" "b.png";
     Sample.added "c" "c.png"] 1 (Sample.cache_a Sample.photo) in
  0 <= ryref_index (scene st) < Z.of_nat (length (ryref_images (scene st))) /\
  (exists st1, move_image_execute UP st = FINISHED st1 /\
               move_image_execute DOWN st1 = FINISHED st) /\
  (exists st1, move_image_execute DOWN st = FINISHED st1 /\
               move_image_execute UP st1 = FINISHED st).
Proof.
  intros st.
  assert (0 <= ryref_index (scene st) <
          Z.of_nat (length (ryref_images (scene st)))) as Hin by (cbn; lia).
  split; [exact Hin|].
  destruct (move_round_trip st Hin) as [Hup Hdown].
  split; [apply Hup | apply Hdown]; cbn; lia.
Defined.

(** X12. Adding a record and removing it straight away gives back the record
    list as it was; the selection ends on the last record of the list (index
    0 when it is empty), not where it was; and the cache has lost the entry
    of the added path, if it had one, and is otherwise as it was. *)
Theorem add_remove_round_trip os_path path st :
  exists st1,
    add_image_execute os_path path st = FINISHED st1 /\
    remove_image_execute st1 =
    FINISHED
      {| scene :=
           {| ryref_references_on := ryref_references_on (scene st);
              ryref_images := ryref_images (scene st);
              ryref_index :=
                Z.max 0 (Z.of_nat (length (ryref_images (scene st))) - 1) |};
         _image_cache := delete path (_image_cache st) |}.
Proof.
  eexists. split; [apply add_image_result|].
  match goal with |- remove_image_execute ?s = _ =>
    destruct (remove_image_cases s)
      as [[Hout _] | (img & Hin & Himg & ->)] end;
    cbn [scene _image_cache ryref_images ryref_index ryref_references_on] in *.
  - rewrite length_app in Hout. cbn [length] in Hout. lia.
  - rewrite Nat2Z.id in *. rewrite list_lookup_middle in Himg by done.
    injection Himg as <-. cbn [filepath].
    by rewrite delete_middle, app_nil_r.
Qed.

(** X13. If the selected index is valid and every cached path belongs to a
    record, pressing remove once per record empties the list, resets the
    index to 0 and leaves the cache empty. *)
Theorem remove_all os_path st :
  index_ok st -> cache_covered st ->
  run_actions os_path
    (replicate (length (ryref_images (scene st))) DoRemove) st =
  FINISHED
    {| scene := {| ryref_references_on := ryref_references_on (scene st);
                   ryref_images := []; ryref_index := 0 |};
       _image_cache := ∅ |}.
Proof.
  remember (length (ryref_images (scene st))) as n eqn:Hn.
  revert st Hn. induction n as [|n IH]; intros st Hn Hok Hcov.
  - cbn. destruct st as [[on images index] cache].
    unfold index_ok, cache_covered in *. cbn in *.
    destruct images; [|done].
    destruct Hok as [[_ ->] | H]; [|cbn in H; lia].
    do 2 f_equal. apply map_eq. intros path. rewrite lookup_empty.
    destruct (cache !! path) as [e|] eqn:Hc; [|done].
    destruct (Hcov path) as (r & Hr & _); [by rewrite Hc|].
    by apply elem_of_nil in Hr.
  - cbn [replicate run_actions run_action].
    destruct (remove_image_cases st) as [[Hout _] | (img & Hin & Himg & Hrun)].
    { destruct Hok as [[Hnil _] | H]; [by rewrite Hnil in Hn|done]. }
    cbn [run_action].
    rewrite Hrun.
    pose proof (run_action_index_ok os_path DoRemove st _ Hrun Hok) as Hok1.
    pose proof (run_action_covered os_path DoRemove st _ Hrun Hcov) as Hcov1.
    pose proof (length_delete _ _ (ex_intro _ img Himg)) as Hlen.
    rewrite <- Hn in Hlen. cbn in Hlen. rewrite Nat.sub_0_r in Hlen.
    match type of Hok1 with index_ok ?st1 =>
      specialize (IH st1 (eq_sym Hlen) Hok1 Hcov1) end.
    cbn [scene ryref_images ryref_references_on] in IH.
    exact IH.
Qed.

Lemma remove_all_witness :
  let st := SampleOs.state
    [Sample.added "a" "a.png"; Sample.added "copy" "a.png"] 1
    (Sample.cache_a Sample.photo) in
  index_ok st /\ cache_covered st /\
  run_actions SampleOs.os_path [DoRemove; DoRemove] st =
  FINISHED (SampleOs.state [] 0 ∅).
Proof.
  intros st.
  assert (index_ok st) as Hok by (right; cbn; lia).
  assert (cache_covered st) as Hcov.
  { intros path [e He]. exists (Sample.added "a" "a.png").
    split; [apply elem_of_cons; by left|].
    unfold st, SampleOs.state, Sample.cache_a in He. cbn in He.
    apply lookup_singleton_Some in He as [<- _]. reflexivity. }
  split; [exact Hok|]. split; [exact Hcov|].
  exact (remove_all SampleOs.os_path st Hok Hcov).
Defined.

(** ** Commands and the next frame *)

(** X14. A move, in range or not, changes at most the order of the next
    frame's draw calls: with the same host, the draw calls after the move
    are a permutation of those before it. *)
Theorem move_image_permutes_draw_calls direction st s host :
  exists st',
    move_image_execute direction st = FINISHED st' /\
    (gpu_run s (draw_overlay host (scene st') (_image_cache st')).2).2 ≡ₚ
    (gpu_run s (draw_overlay host (scene st) (_image_cache st)).2).2.
Proof.
  destruct (move_image_cases direction st)
    as [-> | (images' & index' & -> & Hperm & _)]; eexists;
    (split; [reflexivity|]); [done|].
  rewrite !gpu_run_draw_overlay.
  cbn [scene _image_cache ryref_images ryref_references_on].
  destruct (ryref_references_on (scene st)); [|done].
  by apply Permutation_flat_map.
Qed.

Lemma rendered_delete_other host cache path img_data :
  filepath img_data <> path ->
  rendered host (delete path cache) img_data = rendered host cache img_data.
Proof.
  intros Hne. unfold rendered, resolve. by rewrite lookup_delete_ne.
Qed.

(** X15. When the selected record is removed and no remaining record has its
    path, the next enabled frame makes the draw calls it made before minus
    the removed record's: the calls of the records before it, then those of
    the records after it, each unchanged. *)
Theorem remove_image_keeps_other_draw_calls st s host img :
  ryref_references_on (scene st) = true ->
  ryref_images (scene st) !! Z.to_nat (ryref_index (scene st)) = Some img ->
  0 <= ryref_index (scene st) ->
  (forall r,
     r ∈ delete (Z.to_nat (ryref_index (scene st))) (ryref_images (scene st)) ->
     filepath r <> filepath img) ->
  let before :=
    flat_map (rendered host (_image_cache st))
      (take (Z.to_nat (ryref_index (scene st))) (ryref_images (scene st))) in
  let after :=
    flat_map (rendered host (_image_cache st))
      (drop (S (Z.to_nat (ryref_index (scene st))))
         (ryref_images (scene st))) in
  (gpu_run s (draw_overlay host (scene st) (_image_cache st)).2).2 =
    before ++ rendered host (_image_cache st) img ++ after /\
  exists st',
    remove_image_execute st = FINISHED st' /\
    (gpu_run s (draw_overlay host (scene st') (_image_cache st')).2).2 =
      before ++ after.
Proof.
  intros Hon Himg Hpos Hother before after. split.
  - rewrite gpu_run_draw_overlay, Hon.
    rewrite <- (take_drop_middle _ _ _ Himg) at 1.
    by rewrite flat_map_app.
  - destruct (remove_image_cases st) as [[Hout _] | (img' & Hin & Himg' & ->)].
    { apply lookup_lt_Some in Himg. lia. }
    assert (img' = img) as -> by congruence.
    eexists. split; [reflexivity|].
    rewrite gpu_run_draw_overlay.
    cbn [scene _image_cache ryref_images ryref_references_on]. rewrite Hon.
    assert (forall l, (forall r, r ∈ l -> filepath r <> filepath img) ->
              flat_map (rendered host (delete (filepath img) (_image_cache st))) l
              = flat_map (rendered host (_image_cache st)) l) as Hsame.
    { induction l as [|r l IH]; intros Hl; [done|]. cbn [flat_map].
      rewrite rendered_delete_other, IH; [done| |].
      - intros r' Hr'. apply Hl. by right.
      - apply Hl. by left. }
    rewrite Hsame by done.
    by rewrite delete_take_drop, flat_map_app.
Qed.

Lemma remove_image_keeps_other_draw_calls_witness :
  let a := Sample.added "a" "a.png" in
  let b := Sample.added "b" "b.png" in
  let st := SampleOs.state [a; b] 0 (Sample.cache_a Sample.photo) in
  let s := mkGpuState NONE false None None in
  let host := Sample.host_of Sample.photo in
  ryref_images (scene st) !! Z.to_nat (ryref_index (scene st)) = Some a /\
  (gpu_run s (draw_overlay host (scene st) (_image_cache st)).2).2 =
    [] ++ rendered host (_image_cache st) a ++
    flat_map (rendered host (_image_cache st)) [b] /\
  exists st',
    remove_image_execute st = FINISHED st' /\
    (gpu_run s (draw_overlay host (scene st') (_image_cache st')).2).2 =
      [] ++ flat_map (rendered host (_image_cache st)) [b].
Proof.
  intros a b st s host. split; [reflexivity|].
  assert (forall r, r ∈ delete (Z.to_nat (ryref_index (scene st)))
                        (ryref_images (scene st)) ->
                    filepath r <> filepath a) as Hother.
  { intros r Hr. cbn in Hr. apply list_elem_of_singleton in Hr as ->.
    discriminate. }
  assert (0 <= ryref_index (scene st)) as Hpos by (cbn; lia).
  exact (remove_image_keeps_other_draw_calls st s host a
           eq_refl eq_refl Hpos Hother).
Defined.

(** ** tag_redraw *)

(** X16. [tag_redraw] requests a redraw for every area of type VIEW_3D and
    for no other: it keeps the areas, their order and their types, never
    clears a request that was already there, and calling it twice is the
    same as calling it once. *)
Theorem tag_redraw_marks_view3d areas :
  length (tag_redraw areas) = length areas /\
  (forall i area,
     areas !! i = Some area ->
     tag_redraw areas !! i =
     Some {| area_type := area_type area;
             redraw_tagged :=
               redraw_tagged area || String.eqb (area_type area) "VIEW_3D" |}) /\
  tag_redraw (tag_redraw areas) = tag_redraw areas.
Proof.
  unfold tag_redraw. split; [apply length_map|]. split.
  - intros i area Hi. rewrite list_lookup_fmap, Hi. cbn.
    destruct (String.eqb (area_type area) "VIEW_3D");
      [by rewrite orb_true_r|].
    rewrite orb_false_r. by destruct area.
  - rewrite map_map. apply map_ext. intros area.
    destruct (String.eqb (area_type area) "VIEW_3D") eqn:He; cbn; by rewrite He.
Qed.

(** ** Load and unload *)

(** X17. Loading and unloading are balanced.  On a host that has none of the
    addon's classes, scene properties or its draw handler on record,
    [register] followed by [unregister] leaves the host's records as they
    were, whatever the cache has come to hold in between; [unregister]
    leaves no draw handle and an empty cache; it removes exactly the handler
    [register] installed, and takes the classes off in the reverse of the
    order they were put on. *)
Theorem register_unregister_balanced new_handle g cache r :
  (forall cls, cls ∈ classes -> cls ∉ reg_classes r) ->
  (forall prop,
     prop ∈ ["ryref_images"; "ryref_index"; "ryref_references_on"] ->
     prop ∉ reg_props r) ->
  new_handle ∉ reg_handlers r ->
  let g1 := (register new_handle g).1 in
  let running := {| _draw_handle := _draw_handle g1; image_cache := cache |} in
  host_calls r ((register new_handle g).2 ++ (unregister running).2) = r /\
  (unregister running).1 = {| _draw_handle := None; image_cache := ∅ |} /\
  (exists rest, (unregister running).2 = DrawHandlerRemove new_handle :: rest) /\
  omap (fun c => match c with UnregisterClass cls => Some cls | _ => None end)
    (unregister running).2 =
  rev (omap (fun c => match c with RegisterClass cls => Some cls | _ => None end)
         (register new_handle g).2).
Proof.
  intros Hcls Hprops Hh g1 running. split; [|split; [done|split]].
  - destruct r as [rc rp rh]. cbn in *.
    unfold host_calls. cbn.
    assert (forall cls, cls ∈ classes -> cls ∉ rc) as Hc by done.
    unfold classes in Hc.
    f_equal; apply set_eq; intros x.
    + specialize (Hc x). clear Hprops Hh. set_unfold. intuition congruence.
    + specialize (Hprops x). clear Hc Hh. set_unfold. intuition congruence.
    + clear Hc Hprops. set_unfold. intuition congruence.
  - by eexists.
  - reflexivity.
Qed.

Lemma register_unregister_balanced_witness :
  let r := {| reg_classes := {["OtherAddon"]}; reg_props := ∅;
              reg_handlers := {[1%positive]} |} in
  let g := {| _draw_handle := None; image_cache := ∅ |} in
  host_calls r
    ((register 2%positive g).2 ++
     (unregister {| _draw_handle := Some 2%positive;
                    image_cache := Sample.cache_a Sample.photo |}).2) = r.
Proof.
  intros r g.
  pose proof (register_unregister_balanced 2%positive g
                (Sample.cache_a Sample.photo) r) as H.
  cbv zeta in H. apply H.
  - intros cls Hcls. cbn. unfold classes in Hcls. set_unfold.
    intros ->. repeat (destruct Hcls as [Hcls | Hcls]; [discriminate|]).
    done.
  - intros prop _. cbn. set_solver.
  - cbn. set_unfold. discriminate.
Defined.

(** X18. Whatever the flips, the four UVs are the four corners of the unit
    square, each used once: flipping permutes the corners and never takes a
    coordinate outside 0 and 1. *)
Theorem uvs_corners fx fy :
  uvs fx fy ≡ₚ [(0, 0); (1, 0); (1, 1); (0, 1)] /\
  NoDup (uvs fx fy) /\
  Forall (fun uv => (uv.1 = 0 \/ uv.1 = 1) /\ (uv.2 = 0 \/ uv.2 = 1)) (uvs fx fy).
Proof.
  destruct fx, fy; cbn;
    (split; [|split]); apply (bool_decide_unpack _); vm_compute; reflexivity.
Qed.

(** ** More on removing *)

(** X19. After a removal in range the records before the removed one keep
    their places and those after it move up by one, in the same order; the
    selection goes to the record that stood before the removed one, or, when
    the first record was removed, to the one that stood after it. *)
Theorem remove_image_selection st :
  0 <= ryref_index (scene st) < Z.of_nat (length (ryref_images (scene st))) ->
  exists st',
    remove_image_execute st = FINISHED st' /\
    (forall k, (k < Z.to_nat (ryref_index (scene st)))%nat ->
       ryref_images (scene st') !! k = ryref_images (scene st) !! k) /\
    (forall k, (Z.to_nat (ryref_index (scene st)) <= k)%nat ->
       ryref_images (scene st') !! k = ryref_images (scene st) !! S k) /\
    ryref_images (scene st') !! Z.to_nat (ryref_index (scene st')) =
      (if 0 <? ryref_index (scene st)
       then ryref_images (scene st) !! Z.to_nat (ryref_index (scene st) - 1)
       else ryref_images (scene st) !! 1%nat).
Proof.
  intros Hin.
  destruct (remove_image_cases st) as [[Hout _] | (img & _ & Himg & ->)];
    [done|].
  eexists. split; [reflexivity|].
  cbn [scene ryref_images ryref_index].
  split; [intros k Hk; by apply list_lookup_delete_lt|].
  split; [intros k Hk; by apply list_lookup_delete_ge|].
  destruct (Z.ltb_spec 0 (ryref_index (scene st))).
  - rewrite Z.max_r by lia. apply list_lookup_delete_lt. lia.
  - replace (ryref_index (scene st)) with 0 by lia. cbn.
    by apply list_lookup_delete_ge.
Qed.

Lemma remove_image_selection_witness :
  let a := Sample.added "a" "a.png" in
  let b := Sample.added "b" "b.png" in
  let c := Sample.added "c" "c.png" in
  let st := SampleOs.state [a; b; c] 1 ∅ in
  0 <= ryref_index (scene st) < Z.of_nat (length (ryref_images (scene st))) /\
  exists st',
    remove_image_execute st = FINISHED st' /\
    ryref_images (scene st') !! Z.to_nat (ryref_index (scene st')) = Some a.
Proof.
  intros a b c st.
  assert (0 <= ryref_index (scene st) <
          Z.of_nat (length (ryref_images (scene st)))) as Hin by (cbn; lia).
  split; [exact Hin|].
  destruct (remove_image_selection st Hin) as (st' & Hrun & _ & _ & Hsel).
  exists st'. split; [exact Hrun | exact Hsel].
Defined.

(** X20. The eviction of a path that another record still uses heals at the
    next frame: if a visible remaining record shares the removed record's
    path and the host can load it, the removal leaves the path without
    entry and the next enabled frame completes exactly one decode-and-upload
    for it and caches what the host gave. *)
Theorem remove_image_shared_path_reloads st host img other entry :
  ryref_references_on (scene st) = true ->
  0 <= ryref_index (scene st) ->
  ryref_images (scene st) !! Z.to_nat (ryref_index (scene st)) = Some img ->
  other ∈ delete (Z.to_nat (ryref_index (scene st))) (ryref_images (scene st)) ->
  visible other = true ->
  filepath other = filepath img ->
  (try_load host (filepath img)).2 = Some entry ->
  exists st',
    remove_image_execute st = FINISHED st' /\
    _image_cache st' !! filepath img = None /\
    (draw_overlay host (scene st') (_image_cache st')).1 !! filepath img =
      Some entry /\
    stores_of (filepath img)
      (draw_overlay host (scene st') (_image_cache st')).2 = 1%nat.
Proof.
  intros Hon Hpos Himg Hother Hv Hp Hload.
  destruct (remove_image_cases st) as [[Hout _] | (img' & Hin & Himg' & ->)].
  { apply lookup_lt_Some in Himg. lia. }
  assert (img' = img) as -> by congruence.
  eexists. split; [reflexivity|].
  cbn [scene _image_cache].
  assert (delete (filepath img) (_image_cache st) !! filepath img = None)
    as Hnone by apply lookup_delete_eq.
  assert ((draw_overlay host
             {| ryref_references_on := ryref_references_on (scene st);
                ryref_images :=
                  delete (Z.to_nat (ryref_index (scene st)))
                    (ryref_images (scene st));
                ryref_index := Z.max 0 (ryref_index (scene st) - 1) |}
             (delete (filepath img) (_image_cache st))).1 !! filepath img
          = Some entry) as Hsome.
  { rewrite draw_overlay_cache_after. cbn [ryref_references_on ryref_images].
    rewrite Hon. unfold cache_after. rewrite Hnone.
    replace (asked _ (filepath img)) with true; [done|].
    symmetry. apply asked_true. by exists other. }
  split; [done|]. split; [done|].
  match goal with |- stores_of ?p (draw_overlay ?h ?sc ?c).2 = _ =>
    pose proof (draw_overlay_stores h sc c p) as Hst end.
  unfold cached in Hst. rewrite Hnone, Hsome in Hst. lia.
Qed.

Lemma remove_image_shared_path_reloads_witness :
  let a := Sample.added "a" "a.png" in
  let copy := Sample.added "copy" "a.png" in
  let st := SampleOs.state [a; copy] 0 (Sample.cache_a Sample.photo) in
  let host := Sample.host_of Sample.photo in
  (try_load host (filepath a)).2 = Some (Sample.photo, 1%positive) /\
  exists st',
    remove_image_execute st = FINISHED st' /\
    _image_cache st' !! filepath a = None /\
    (draw_overlay host (scene st') (_image_cache st')).1 !! filepath a =
      Some (Sample.photo, 1%positive) /\
    stores_of (filepath a)
      (draw_overlay host (scene st') (_image_cache st')).2 = 1%nat.
Proof.
  intros a copy st host.
  assert ((try_load host (filepath a)).2 = Some (Sample.photo, 1%positive))
    as Hload by (vm_compute; reflexivity).
  split; [exact Hload|].
  assert (0 <= ryref_index (scene st)) as Hpos by (cbn; lia).
  assert (copy ∈ delete (Z.to_nat (ryref_index (scene st)))
                   (ryref_images (scene st))) as Hother
    by (cbn; apply elem_of_cons; by left).
  exact (remove_image_shared_path_reloads st host a copy _
           eq_refl Hpos eq_refl Hother eq_refl eq_refl Hload).
Defined.

(** ** What decides whether a record is drawn *)

(** X21. Whether a record is drawn, and what its iteration does to the
    cache, depend only on its visibility and its path: two records that
    agree on these leave the same cache and make the same number of draw
    calls, whatever their position, scale, opacity and flips.  In
    particular a record with opacity 0 or scale 0 is not skipped. *)
Theorem draw_decision s host cache r r' :
  visible r = visible r' ->
  filepath r = filepath r' ->
  (draw_image host r cache).1 = (draw_image host r' cache).1 /\
  length (gpu_run s (draw_image host r cache).2).2 =
    length (gpu_run s (draw_image host r' cache).2).2.
Proof.
  intros Hv Hp. split.
  - unfold draw_image. rewrite Hv, Hp.
    destruct (negb (visible r')); [done|]. cbn zeta.
    destruct (cache !! filepath r') as [[i t]|]; [done|].
    by destruct (try_load host (filepath r')) as [evs [[i t]|]].
  - destruct (gpu_run_draw_image s host cache cache r (extends_refl _ _))
      as [-> _].
    destruct (gpu_run_draw_image s host cache cache r' (extends_refl _ _))
      as [-> _].
    unfold rendered. rewrite Hv, Hp.
    destruct (visible r'); [|done].
    destruct (resolve host cache (filepath r')) as [[i t]|]; [|done].
    by destruct (drawable i).
Qed.

Lemma draw_decision_witness :
  let r := Sample.added "ref" "a.png" in
  let faded :=
    {| name := "faded"; filepath := "a.png"; visible := true;
       position := (0, 0)%Q; scale := (0, 0)%Q; opacity := 0%Q;
       flip_x := true; flip_y := false |} in
  let s := mkGpuState NONE false None None in
  length (gpu_run s (draw_image (Sample.host_of Sample.photo) faded ∅).2).2 =
  1%nat.
Proof.
  intros r faded s.
  destruct (draw_decision s (Sample.host_of Sample.photo) ∅ faded r
              eq_refl eq_refl) as [_ ->].
  vm_compute. reflexivity.
Defined.

(** ** Records that fail to load *)

Lemma batches_gpu_run s evs :
  batches evs = map dc_batch (gpu_run s evs).2.
Proof.
  revert s. induction evs as [|ev evs IH]; intros s; [done|].
  cbn [gpu_run]. destruct (gpu_step s ev) as [s1 d1] eqn:Hstep.
  specialize (IH s1). destruct (gpu_run s1 evs) as [s2 d2].
  cbn [snd] in *. rewrite map_app, <- IH.
  change (ev :: evs) with ([ev] ++ evs). rewrite batches_app.
  f_equal.
  destruct ev; cbn in Hstep; try (injection Hstep as <- <-; reflexivity).
  - destruct (String.eqb name0 "image"); by injection Hstep as <- <-.
  - destruct (String.eqb name0 "color"); by injection Hstep as <- <-.
Qed.

Lemma batches_draw_images host cache0 cache images :
  extends host cache0 cache ->
  batches (draw_images host images cache).2 =
  map dc_batch (flat_map (rendered host cache0) images).
Proof.
  intros Hext.
  rewrite (batches_gpu_run (mkGpuState NONE false None None)).
  by destruct (gpu_run_draw_images (mkGpuState NONE false None None)
                 host cache0 cache images Hext) as [-> _].
Qed.

Lemma drawable_false image :
  has_data image = false \/ (image_size image).1 = 0 \/
  (image_size image).2 = 0 ->
  drawable image = false.
Proof.
  unfold drawable. intros [-> | [-> | ->]]; [done| |].
  - by rewrite andb_false_r.
  - by rewrite andb_false_r.
Qed.

(** C4, as the code has it.  In an enabled frame, take a visible record that
    is reached with no cache entry for its path.
    If the load raises (a missing or unreadable file), only that record is
    skipped: its iteration makes the failed load calls and nothing else, the
    cache is untouched, the rest of the frame is what it is without the
    record, the frame ends with no entry for the path, and the next time the
    record is drawn the first thing done is a new [bpy.data.images.load].
    If the load does not raise but gives an image without pixel data or of
    zero width or height (a file that cannot be decoded), the record is
    skipped as well and the other records are drawn as without it, but the
    entry is stored: later frames keep it, load nothing for the path and
    skip the record again. *)
Theorem draw_overlay_load_failure host sc cache pre img_data post :
  ryref_references_on sc = true ->
  ryref_images sc = pre ++ img_data :: post ->
  visible img_data = true ->
  (draw_images host pre cache).1 !! filepath img_data = None ->
  let cache1 := (draw_images host pre cache).1 in
  let calls := (try_load host (filepath img_data)).1 in
  let without := set_images sc (pre ++ post) in
  ((try_load host (filepath img_data)).2 = None ->
   draw_image host img_data cache1 = (cache1, calls) /\
   batches calls = [] /\
   (draw_overlay host sc cache).2 =
     (draw_images host pre cache).2 ++ calls ++
     (draw_images host post cache1).2 /\
   (draw_overlay host without cache).2 =
     (draw_images host pre cache).2 ++ (draw_images host post cache1).2 /\
   batches (draw_overlay host sc cache).2 =
     batches (draw_overlay host without cache).2 /\
   (draw_overlay host sc cache).1 = (draw_overlay host without cache).1 /\
   (draw_overlay host sc cache).1 !! filepath img_data = None /\
   (forall host', exists evs,
      (draw_image host' img_data (draw_overlay host sc cache).1).2 =
      ImagesLoad (filepath img_data) :: evs)) /\
  (forall image gpu_tex,
     (try_load host (filepath img_data)).2 = Some (image, gpu_tex) ->
     has_data image = false \/ (image_size image).1 = 0 \/
     (image_size image).2 = 0 ->
     draw_image host img_data cache1 =
       (<[filepath img_data := (image, gpu_tex)]> cache1, calls) /\
     batches calls = [] /\
     batches (draw_overlay host sc cache).2 =
       batches (draw_overlay host without cache).2 /\
     (draw_overlay host sc cache).1 !! filepath img_data =
       Some (image, gpu_tex) /\
     (forall frames,
        (run_frames frames (draw_overlay host sc cache).1).1
          !! filepath img_data = Some (image, gpu_tex) /\
        loads_of (filepath img_data)
          (run_frames frames (draw_overlay host sc cache).1).2 = []) /\
     (forall host' cache',
        cache' !! filepath img_data = Some (image, gpu_tex) ->
        draw_image host' img_data cache' = (cache', []))).
Proof.
  intros Hon Himgs Hv Hc cache1 calls without. split.
  - intros Hfail.
    assert (draw_image host img_data cache1 = (cache1, calls)) as Hstep
      by by apply draw_image_fail.
    assert (batches calls = []) as Hnone
      by by destruct (try_load_fail_no_store host _ Hfail).
    assert (draw_overlay host sc cache =
            ((draw_images host post cache1).1,
             (draw_images host pre cache).2 ++ calls ++
             (draw_images host post cache1).2)) as Hwith.
    { rewrite draw_overlay_on, Himgs, draw_images_app, draw_images_cons
        by done.
      fold cache1. by rewrite Hstep. }
    assert (draw_overlay host without cache =
            ((draw_images host post cache1).1,
             (draw_images host pre cache).2 ++
             (draw_images host post cache1).2)) as Hwithout.
    { rewrite draw_overlay_on by done. cbn [without set_images ryref_images].
      by rewrite draw_images_app. }
    assert ((draw_overlay host sc cache).1 !! filepath img_data = None)
      as Hend.
    { rewrite Hwith. cbn [fst]. by apply draw_images_fail_stays. }
    rewrite Hwith, Hwithout in *. cbn [fst snd] in *.
    repeat split; try done.
    + by rewrite !batches_app, Hnone.
    + intros host'. by apply draw_image_uncached_begins.
  - intros image gpu_tex Hok Hbad.
    assert (draw_image host img_data cache1 =
            (<[filepath img_data := (image, gpu_tex)]> cache1, calls))
      as Hstep.
    { rewrite (draw_image_fresh host img_data cache1 image gpu_tex) by done.
      by rewrite draw_quad_skip, app_nil_r. }
    assert (cache !! filepath img_data = None) as Hc0.
    { destruct (cache !! filepath img_data) as [e|] eqn:He; [|done].
      destruct (draw_images_keeps host pre cache _ e He) as [Hk _].
      unfold cache1 in Hc. congruence. }
    assert (rendered host cache img_data = []) as Hrend.
    { unfold rendered, resolve. rewrite Hv, Hc0, Hok.
      by rewrite drawable_false. }
    assert ((draw_overlay host sc cache).1 !! filepath img_data =
            Some (image, gpu_tex)) as Hend.
    { rewrite draw_overlay_on, Himgs, draw_images_app, draw_images_cons
        by done.
      cbn [fst]. fold cache1. rewrite Hstep. cbn [fst].
      apply draw_images_keeps, lookup_insert_eq. }
    split; [done|].
    split; [by destruct (try_load_ok_store host _ _ Hok)|].
    split; [|split; [done|split]].
    + rewrite !draw_overlay_on by done.
      cbn [without set_images ryref_images].
      rewrite !(batches_draw_images host cache cache) by apply extends_refl.
      rewrite Himgs, !flat_map_app. cbn [flat_map]. by rewrite Hrend.
    + intros frames. by apply run_frames_keeps.
    + intros host' cache' Hc'.
      rewrite (draw_image_cached host' img_data cache' image gpu_tex) by done.
      by rewrite draw_quad_skip.
Qed.

Lemma draw_overlay_load_failure_witness :
  let lost := Sample.added "lost" "missing.png" in
  let junk := Sample.added "junk" "garbage.png" in
  let ref := Sample.added "ref" "a.png" in
  (try_load Sample.host_missing (filepath lost)).2 = None /\
  (batches (draw_overlay Sample.host_missing
              (Sample.on_scene [lost; ref] 0) ∅).2 =
   batches (draw_overlay Sample.host_missing
              (Sample.on_scene [ref] 0) ∅).2 /\
   (draw_overlay Sample.host_missing (Sample.on_scene [lost; ref] 0) ∅).1
     !! filepath lost = None) /\
  (try_load SampleOs.host_garbage (filepath junk)).2 =
    Some (SampleOs.garbage, 2%positive) /\
  (batches (draw_overlay SampleOs.host_garbage
              (Sample.on_scene [junk; ref] 0) ∅).2 =
   batches (draw_overlay SampleOs.host_garbage
              (Sample.on_scene [ref] 0) ∅).2 /\
   (draw_overlay SampleOs.host_garbage (Sample.on_scene [junk; ref] 0) ∅).1
     !! filepath junk = Some (SampleOs.garbage, 2%positive)).
Proof.
  intros lost junk ref.
  assert ((try_load Sample.host_missing (filepath lost)).2 = None) as Hfail
    by (vm_compute; reflexivity).
  assert ((try_load SampleOs.host_garbage (filepath junk)).2 =
          Some (SampleOs.garbage, 2%positive)) as Hok
    by (vm_compute; reflexivity).
  assert ((draw_images Sample.host_missing [] (∅ : Cache)).1 !! filepath lost
          = None) as Hc1 by (vm_compute; reflexivity).
  assert ((draw_images SampleOs.host_garbage [] (∅ : Cache)).1 !! filepath junk
          = None) as Hc2 by (vm_compute; reflexivity).
  pose proof (draw_overlay_load_failure Sample.host_missing
    (Sample.on_scene [lost; ref] 0) ∅ [] lost [ref]
    eq_refl eq_refl eq_refl Hc1) as H1.
  pose proof (draw_overlay_load_failure SampleOs.host_garbage
    (Sample.on_scene [junk; ref] 0) ∅ [] junk [ref]
    eq_refl eq_refl eq_refl Hc2) as H2.
  cbv zeta in H1, H2.
  destruct H1 as [H1 _]. destruct H2 as [_ H2].
  destruct (H1 Hfail) as (_ & _ & _ & _ & Hb1 & _ & He1 & _).
  destruct (H2 _ _ Hok (or_introl eq_refl)) as (_ & _ & Hb2 & He2 & _).
  split; [exact Hfail|]. split; [split; [exact Hb1 | exact He1]|].
  split; [exact Hok|]. split; [exact Hb2 | exact He2].
Defined.

(** C4 as stated fails for a file that is there but cannot be decoded: the
    loader raises nothing and gives an image without data, so the record is
    skipped, but its entry is cached and the next frame does not try the
    path again. *)
Lemma undecodable_file_is_cached :
  let junk := Sample.added "junk" "garbage.png" in
  let sc := Sample.on_scene [junk; Sample.added "ref" "a.png"] 0 in
  let frame1 := draw_overlay SampleOs.host_garbage sc ∅ in
  let frame2 := draw_overlay SampleOs.host_garbage sc frame1.1 in
  attempts "garbage.png" frame1.2 = 1%nat /\
  length (batches frame1.2) = 1%nat /\
  frame1.1 !! "garbage.png" = Some (SampleOs.garbage, 2%positive) /\
  loads_of "garbage.png" frame2.2 = [] /\
  attempts "garbage.png" frame2.2 = 0%nat.
Proof. vm_compute. repeat split; reflexivity. Qed.

(** ** The rounding model against machine floats *)

(** On the instance of C2 the model's arithmetic and the kernel's binary64
    arithmetic give the same numbers, and so they do on sums and quotients
    that are not exact. *)
Example binary64_agrees :
  Binary64.to_Q Binary64.stored_0_2 = Some (f32 0.2) /\
  Binary64.to_Q Binary64.corner_x =
    Some (fadd 100 (fmul (float_of_int 500) (f32 0.2))) /\
  Binary64.to_Q Binary64.corner_y =
    Some (fadd 100 (fmul (float_of_int 300) (f32 0.2))) /\
  Binary64.to_Q Binary64.sum_of_tenths = Some (fadd (b64 0.1) (b64 0.2)) /\
  Binary64.to_Q Binary64.product_of_thirds =
    Some (fmul (b64 (1 # 3)) (b64 (- 7 # 3))).
Proof. vm_compute. repeat split; reflexivity. Qed.

(** ** Names of added records *)

(** With POSIX paths the record added for ["/home/u/ref.png"] is named
    ["ref"], holds the scale 0.2 in single precision, and is selected. *)
Example add_image_names_record :
  add_image_execute SampleOs.os_path "/home/u/ref.png"
    (SampleOs.state [] 0 ∅) =
  FINISHED
    (SampleOs.state
       [ {| name := "ref"; filepath := "/home/u/ref.png"; visible := true;
            position := (100, 100)%Q;
            scale := (13421773 # 67108864, 13421773 # 67108864)%Q;
            opacity := 1%Q; flip_x := false; flip_y := false |} ] 0 ∅).
Proof. vm_compute. reflexivity. Qed.
